(** * orcha: the processor pipeline and the command utilities

    A shallow embedding of [orcha/utils/cmd.py] and [orcha/lib/processor.py].

    Python objects that live across calls (the process table of the operating
    system, the logger, the singleton processor, the per-petition result
    channels) are fields of explicit state records, and every function of the
    source is a state transformer that may return a value or raise.  The five
    long-lived threads of the processor are modelled by the body of one
    iteration of their [while self.running] loop; a launch worker is modelled
    twice, as the function [_start] and as a program-counter machine whose
    steps interleave with the other threads. *)

From Stdlib Require Import ZArith String Ascii List Bool Lia DecimalString.
From stdpp Require Import base option list strings gmap relations.

Local Open Scope string_scope.
Local Open Scope list_scope.
Local Open Scope Z_scope.

(* ===================================================================== *)
(** * Python values shared by both files *)
(* ===================================================================== *)

Module Py.

(** The exception classes the two files raise, catch or let through. *)
Inductive pyclass :=
| BaseException
| SystemExit
| KeyboardInterrupt
| GeneratorExit
| Exception
| ValueError
| RuntimeError
| LookupError
| IndexError
| OSError
| FileNotFoundError
| psutil_Error
| NoSuchProcess
| ZombieProcess
| AccessDenied.

(** Direct base class, as declared by the interpreter and by psutil. *)
Definition base (c : pyclass) : option pyclass :=
  match c with
  | BaseException => None
  | SystemExit | KeyboardInterrupt | GeneratorExit | Exception => Some BaseException
  | ValueError | RuntimeError | LookupError | OSError | psutil_Error =>
      Some Exception
  | IndexError => Some LookupError
  | FileNotFoundError => Some OSError
  | NoSuchProcess | AccessDenied => Some psutil_Error
  | ZombieProcess => Some NoSuchProcess
  end.

Definition pyclass_eqb (c d : pyclass) : bool :=
  match c, d with
  | BaseException, BaseException | SystemExit, SystemExit
  | KeyboardInterrupt, KeyboardInterrupt | GeneratorExit, GeneratorExit
  | Exception, Exception | ValueError, ValueError
  | RuntimeError, RuntimeError | LookupError, LookupError
  | IndexError, IndexError | OSError, OSError
  | FileNotFoundError, FileNotFoundError | psutil_Error, psutil_Error
  | NoSuchProcess, NoSuchProcess | ZombieProcess, ZombieProcess
  | AccessDenied, AccessDenied => true
  | _, _ => false
  end.

(** [issubclass c d]: walk the chain of bases; the hierarchy above has
    depth four, so five links always reach the root. *)
Fixpoint issubclass_upto (n : nat) (c d : pyclass) : bool :=
  pyclass_eqb c d ||
  match n with
  | O => false
  | S n' => match base c with
            | Some b => issubclass_upto n' b d
            | None => false
            end
  end.

Definition issubclass : pyclass -> pyclass -> bool := issubclass_upto 5.

Record exn := mk_exn { exn_class : pyclass; exn_msg : string }.

Definition isinstance (e : exn) (c : pyclass) : bool :=
  issubclass (exn_class e) c.

(** The outcome of a call: a value, or an exception on its way up. *)
Inductive result (A : Type) :=
| Ok (a : A)
| Raised (e : exn).
Arguments Ok {A} a.
Arguments Raised {A} e.

Definition is_ok {A} (r : result A) : bool :=
  match r with Ok _ => true | Raised _ => false end.

(** Stateful, fallible code over a store [S]. *)
Definition M (S A : Type) : Type := S -> result A * S.

Definition ret {S A} (a : A) : M S A := fun s => (Ok a, s).
Definition raise {S A} (e : exn) : M S A := fun s => (Raised e, s).
Definition bind {S A B} (m : M S A) (k : A -> M S B) : M S B :=
  fun s => match m s with
           | (Ok a, s') => k a s'
           | (Raised e, s') => (Raised e, s')
           end.
Definition modify {S} (f : S -> S) : M S unit := fun s => (Ok tt, f s).
Definition gets {S A} (f : S -> A) : M S A := fun s => (Ok (f s), s).

(** [try: body except cls: handler]: only instances of [cls] reach the
    handler, anything else keeps propagating. *)
Definition try_except {S A} (body : M S A) (cls : pyclass)
    (handler : exn -> M S A) : M S A :=
  fun s => match body s with
           | (Ok a, s') => (Ok a, s')
           | (Raised e, s') =>
               if isinstance e cls then handler e s' else (Raised e, s')
           end.

(** [try: body finally: cleanup]: the cleanup always runs; when it ends
    normally the outcome of the body (value or pending exception) stands. *)
Definition try_finally {S A} (body : M S A) (cleanup : M S unit) : M S A :=
  fun s => match body s with
           | (r, s') => match cleanup s' with
                        | (Ok _, s'') => (r, s'')
                        | (Raised e, s'') => (Raised e, s'')
                        end
           end.

(** [for x in xs: body x] over a list that the body does not change. *)
Fixpoint for_each {S A} (xs : list A) (body : A -> M S unit) : M S unit :=
  match xs with
  | [] => ret tt
  | x :: rest => bind (body x) (fun _ => for_each rest body)
  end.

(** [str(n)] for an [int]. *)
Definition str_of_int (n : Z) : string :=
  NilZero.string_of_int (Z.to_int n).

Definition dquote : string := String "034"%char EmptyString.
Definition newline : string := String "010"%char EmptyString.
Definition quoted (s : string) : string := dquote +:+ s +:+ dquote.

End Py.

Export Py.

Declare Scope py_scope.
Delimit Scope py_scope with py.
Notation "x <- m ;; k" := (bind m (fun x => k))
  (at level 100, m at next level, right associativity) : py_scope.
Notation "m ;;; k" := (bind m (fun _ => k))
  (at level 100, right associativity) : py_scope.

(** The logger: every call of [log.debug], [log.warning], ... appends one
    record holding the format string of the source and its integer
    arguments (a petition or message is logged by its id). *)
Inductive log_level := DEBUG | INFO | WARNING | CRITICAL.

Record log_record := mk_log {
  log_lvl : log_level;
  log_fmt : string;
  log_args : list Z
}.

Definition is_warning (r : log_record) : bool :=
  match log_lvl r with WARNING => true | _ => false end.

(** The records of level [WARNING] among [l], in order. *)
Definition warnings (l : list log_record) : list log_record :=
  List.filter is_warning l.

(* ===================================================================== *)
(** * orcha/utils/cmd.py *)
(* ===================================================================== *)

Module Cmd.

Definition SIGINT : Z := 2.
Definition SIGTERM : Z := 15.

(** A [subprocess.Popen] object: the pid of the spawned program, the
    lines its merged stdout/stderr pipe yields until end of file, and the
    code [wait()] returns. *)
Record Popen := mk_popen {
  popen_pid : Z;
  popen_stdout : list string;
  popen_returncode : Z
}.

(** What the operating system and the logger hold.  [procs] is the
    process table ([(pid, ppid)] of every live process); [exits] is what
    the rest of the machine does meanwhile: the pids that terminate just
    before each of the coming library calls; [delivered] records every
    signal that reached a process; [programs] says what starting a command
    in a working directory comes to on this machine. *)
Record World := mk_world {
  procs : list (Z * Z);
  protected : list Z;
  exits : list (list Z);
  delivered : list (Z * Z);
  programs : list ((list string * option string) * result (list string * Z));
  next_pid : Z;
  self_pid : Z;
  log : list log_record
}.

Definition set_procs (f : list (Z * Z) -> list (Z * Z)) (w : World) : World :=
  mk_world (f (procs w)) (protected w) (exits w) (delivered w)
           (programs w) (next_pid w) (self_pid w) (log w).
Definition set_exits (e : list (list Z)) (w : World) : World :=
  mk_world (procs w) (protected w) e (delivered w)
           (programs w) (next_pid w) (self_pid w) (log w).
Definition add_delivered (pid sig : Z) (w : World) : World :=
  mk_world (procs w) (protected w) (exits w) (delivered w ++ [(pid, sig)])
           (programs w) (next_pid w) (self_pid w) (log w).
Definition set_next_pid (n : Z) (w : World) : World :=
  mk_world (procs w) (protected w) (exits w) (delivered w)
           (programs w) n (self_pid w) (log w).
Definition add_log (r : log_record) (w : World) : World :=
  mk_world (procs w) (protected w) (exits w) (delivered w)
           (programs w) (next_pid w) (self_pid w) (log w ++ [r]).

Definition mem (x : Z) (l : list Z) : bool := existsb (Z.eqb x) l.

Definition pids (w : World) : list Z := map fst (procs w).
Definition is_live (pid : Z) (w : World) : bool := mem pid (pids w).

Definition remove_pids (gone : list Z) (tbl : list (Z * Z)) : list (Z * Z) :=
  List.filter (fun e => negb (mem (fst e) gone)) tbl.

(** Time passes: the processes scheduled to terminate now do so. *)
Definition tick (w : World) : World :=
  match exits w with
  | [] => w
  | gone :: later => set_exits later (set_procs (remove_pids gone) w)
  end.

Definition log_debug (fmt : string) (args : list Z) : M World unit :=
  modify (add_log (mk_log DEBUG fmt args)).
Definition log_warning (fmt : string) (args : list Z) : M World unit :=
  modify (add_log (mk_log WARNING fmt args)).

(** ** psutil, as the source uses it *)

(** A [psutil.Process] object. *)
Record Process := mk_process { process_pid : Z }.

(** [psutil.Process(pid)]: [ValueError] for a negative pid,
    [NoSuchProcess] when no process has that pid. *)
Definition psutil_Process (pid : Z) : M World Process :=
  fun w0 =>
    let w := tick w0 in
    if pid <? 0 then
      (Raised (mk_exn ValueError "pid must be a positive integer"), w)
    else if is_live pid w then (Ok (mk_process pid), w)
    else (Raised (mk_exn NoSuchProcess (str_of_int pid)), w).

Definition ppid_of (tbl : list (Z * Z)) (pid : Z) : option Z :=
  snd <$> List.find (fun e => fst e =? pid) tbl.

(** [c] has [anc] among its first [n] ancestors. *)
Fixpoint has_ancestor (n : nat) (tbl : list (Z * Z)) (c anc : Z) : bool :=
  match n with
  | O => false
  | S n' => match ppid_of tbl c with
            | Some pp => (pp =? anc) || has_ancestor n' tbl pp anc
            | None => false
            end
  end.

Definition descendants (tbl : list (Z * Z)) (pid : Z) : list Z :=
  List.filter (fun c => has_ancestor (length tbl) tbl c pid) (map fst tbl).

(** [c] descends from [pid] in the process table of [w]. *)
Definition is_descendant (w : World) (c pid : Z) : bool :=
  has_ancestor (length (procs w)) (procs w) c pid.

(** [proc.children(recursive=True)]: the live descendants at the time
    of the call. *)
Definition children_recursive (parent : Process) : M World (list Process) :=
  fun w0 =>
    let w := tick w0 in
    if is_live (process_pid parent) w then
      (Ok (map mk_process (descendants (procs w) (process_pid parent))), w)
    else (Raised (mk_exn NoSuchProcess (str_of_int (process_pid parent))), w).

(** [proc.send_signal(sig)]: [NoSuchProcess] when the process is gone
    by now, [AccessDenied] when the caller may not signal it. *)
Definition send_signal (proc : Process) (sig : Z) : M World unit :=
  fun w0 =>
    let w := tick w0 in
    let pid := process_pid proc in
    if is_live pid w then
      if mem pid (protected w) then
        (Raised (mk_exn AccessDenied (str_of_int pid)), w)
      else (Ok tt, add_delivered pid sig w)
    else (Raised (mk_exn NoSuchProcess (str_of_int pid)), w).

(** ** kill_proc_tree *)

Definition kill_proc_tree (pid : Z) (including_parent : bool) (sig : Z)
    : M World unit :=
  try_except
    (parent <- psutil_Process pid ;;
     children <- children_recursive parent ;;
     for_each children (fun child => send_signal child sig) ;;;
     if including_parent then send_signal parent sig else ret tt)%py
    NoSuchProcess
    (fun _ =>
       log_warning "error while trying to kill proccess with id %s" [pid]).

(** ** subprocess, as the source uses it *)

(** What the operating system makes of [command] started in the working
    directory [cwd] ([None]: the caller's own): the lines the program
    prints and its exit code, or the error the spawn fails with.  The
    machine decides, by its table [programs]; a pair the table does not
    list is a program that is not found.  An empty argument list never
    gets that far: [Popen] fails on [args[0]]. *)
Definition program_of (w : World) (command : list string)
    (cwd : option string) : result (list string * Z) :=
  match command with
  | [] => Raised (mk_exn IndexError "list index out of range")
  | _ :: _ =>
      match List.find (fun e => bool_decide (fst e = (command, cwd)))
                      (programs w) with
      | Some e => snd e
      | None => Raised (mk_exn FileNotFoundError "No such file or directory")
      end
  end.

(** [subprocess.Popen(command, stdout=PIPE, stderr=STDOUT, stdin=DEVNULL,
    universal_newlines=True, bufsize=1, cwd=cwd, start_new_session=True)]:
    the child enters the process table under a fresh pid with the caller
    as its parent; a spawn that fails raises and leaves the table alone. *)
Definition Popen_spawn (command : list string) (cwd : option string)
    : M World Popen :=
  fun w =>
    match program_of w command cwd with
    | Raised e => (Raised e, w)
    | Ok (out, rc) =>
        let pid := next_pid w in
        (Ok (mk_popen pid out rc),
         set_next_pid (pid + 1)
           (set_procs (fun tbl => tbl ++ [(pid, self_pid w)]) w))
    end.

(** [proc.wait()]: the child is reaped and its exit code returned. *)
Definition Popen_wait (proc : Popen) : M World Z :=
  fun w => (Ok (popen_returncode proc),
            set_procs (remove_pids [popen_pid proc]) w).

(** [Popen.__exit__]: close the pipe and wait for the child. *)
Definition Popen_exit (proc : Popen) : M World unit :=
  (Popen_wait proc ;;; ret tt)%py.

Section Runner.

(** [shlex.split] of the standard library; it raises [ValueError] on
    an unbalanced quotation. *)
Variable shlex_split : string -> result (list string).

(** The state the caller's callbacks work on. *)
Context {U : Type}.

(** A callback is code of the caller: it is handed its argument, works on
    the caller's state, and finds the machine as it is at the moment of
    the call (it may ask whether the process of its handle is alive, say);
    it is taken not to change the machine itself. *)
Definition callback (A : Type) : Type := A -> World -> M U unit.

(** [def empty(_): pass] *)
Definition empty {A : Type} : callback A := fun _ _ => ret tt.

Definition in_world {A} (m : M World A) : M (World * U) A :=
  fun s => match m (fst s) with (r, w') => (r, (w', snd s)) end.
Definition in_user {A} (m : World -> M U A) : M (World * U) A :=
  fun s => match m (fst s) (snd s) with (r, u') => (r, (fst s, u')) end.

(** [with subprocess.Popen(...) as proc: body] *)
Definition with_Popen {A} (command : list string) (cwd : option string)
    (body : Popen -> M (World * U) A) : M (World * U) A :=
  (proc <- in_world (Popen_spawn command cwd) ;;
   try_finally (body proc) (in_world (Popen_exit proc)))%py.

(** [on_start = empty if on_start is None else on_start] *)
Definition or_empty {A} (f : option (callback A)) : callback A :=
  match f with None => empty | Some f => f end.

(** [shlex.split(cmd) if isinstance(cmd, str) else cmd] *)
Definition command_of (cmd : string + list string) : result (list string) :=
  match cmd with
  | inl s => shlex_split s
  | inr argv => Ok argv
  end.

Definition run_command (cmd : string + list string)
    (on_start : option (callback Popen))
    (on_output : option (callback string))
    (on_finish : option (callback Z))
    (cwd : option string) : M (World * U) Z :=
  let on_start := or_empty on_start in
  let on_output := or_empty on_output in
  let on_finish := or_empty on_finish in
  (command <- (fun st => (command_of cmd, st)) ;;
   in_world (log_debug "$ %s" []) ;;;
   in_world (log_debug "> %s" []) ;;;
   rc <- with_Popen command cwd (fun proc =>
           in_user (on_start proc) ;;;
           for_each (popen_stdout proc)
                    (fun line => in_user (on_output line)) ;;;
           in_world (Popen_wait proc)) ;;
   in_user (on_finish rc) ;;;
   ret rc)%py.

End Runner.

End Cmd.

(* ===================================================================== *)
(** * orcha/lib/processor.py *)
(* ===================================================================== *)

Module Message.
(** Modelled from the spec: the class [Message] of
    [orcha.interfaces.message] is not among the sources.  The spec (data
    model) describes it as an opaque inbound item carrying at least an
    identifier, of which the core inspects nothing but the identity. *)
Record t := mk { id : Z; payload : string }.
End Message.

Module Petition.

(** What an action hands to [assign_pid]: a raw pid or a [Popen]. *)
Inductive proc_arg :=
| Pid (pid : Z)
| Handle (proc : Cmd.Popen).

(** Modelled from the spec: what an action does is the business of the
    missing class [Petition]; the spec (data model, launch worker) has it
    perform the work, call [assign_pid] back zero or more times meanwhile,
    and return or raise.  That is all the processor sees of it. *)
Inductive script :=
| Return
| Raise (e : exn)
| AssignPid (proc : proc_arg) (rest : script).

(** How often an action calls [assign_pid], and the exception it ends
    with, if any. *)
Fixpoint assign_calls (a : script) : nat :=
  match a with
  | Return | Raise _ => O
  | AssignPid _ rest => S (assign_calls rest)
  end.

Fixpoint outcome (a : script) : option exn :=
  match a with
  | Return => None
  | Raise e => Some e
  | AssignPid _ rest => outcome rest
  end.

(** [proc if isinstance(proc, int) else proc.pid] *)
Definition pid_of (proc : proc_arg) : Z :=
  match proc with
  | Pid n => n
  | Handle h => Cmd.popen_pid h
  end.

(** The pid of the last call of [assign_pid] an action makes, if any. *)
Fixpoint last_pid (a : script) : option Z :=
  match a with
  | Return | Raise _ => None
  | AssignPid proc rest =>
      match last_pid rest with
      | Some n => Some n
      | None => Some (pid_of proc)
      end
  end.

(** Modelled from the spec: the class [Petition] of
    [orcha.interfaces.petition] is not among the sources.  The spec (data
    model and unit contract) gives a unit an integer [id], an ordering key
    (lower first), a per-unit result channel [queue], a readiness
    predicate [condition] and an [action]; the predicate is read against
    the state [MS] of the policy object. *)
Record t (MS : Type) := mk {
  id : Z;
  priority : Z;
  queue : Z;
  condition : MS -> bool;
  action : script
}.
Arguments mk {MS}.
Arguments id {MS}.
Arguments priority {MS}.
Arguments queue {MS}.
Arguments condition {MS}.
Arguments action {MS}.

(** Modelled from the spec: [EmptyPetition], the sentinel variant that
    only unblocks a waiting consumer and is never dispatched. *)
Inductive item (MS : Type) :=
| EmptyPetition
| Unit (p : t MS).
Arguments EmptyPetition {MS}.
Arguments Unit {MS}.

(** [a < b] as [PriorityQueue] uses it.  The spec leaves the place of the
    sentinel in the order open: it is below nothing and nothing is below
    it, so it may leave the queue at any time. *)
Definition lt {MS} (a b : item MS) : bool :=
  match a, b with
  | Unit p, Unit q => priority p <? priority q
  | _, _ => false
  end.

End Petition.

Module Proc.

Import Petition.

(** Modelled from the spec: the class [Manager] of [orcha.lib] is not
    among the sources.  The spec (external interfaces) lists the four
    methods the core calls; each works on the manager's own state. *)
Class Manager (MS : Type) := {
  convert_to_petition : Message.t -> MS -> option (Petition.t MS) * MS;
  is_running : Message.t + Z -> MS -> bool * MS;
  on_start : Petition.t MS -> MS -> MS;
  on_finish : Petition.t MS -> MS -> MS
}.

(** What travels on the finish queues: [None], an id or a [Message]. *)
Inductive sig_item :=
| SigNone
| SigId (id : Z)
| SigMessage (m : Message.t).

(** What is put on a petition's result channel: a line or a status. *)
Inductive chan_item :=
| Line (s : string)
| Status (n : Z).

(** The calls the processor makes on its collaborators, in order. *)
Inductive call :=
| Call_convert_to_petition (m : Z)
| Call_is_running (m : Message.t + Z)
| Call_condition (id : Z)
| Call_action (id : Z)
| Call_on_start (id : Z)
| Call_on_finish (id : Z)
| Call_kill_proc_tree (pid : Z) (including_parent : bool) (sig : Z).

(** Where a launch worker stands inside [_start]. *)
Inductive wphase :=
| AtCondition
| AtRequeue
| AtRequeueSignal
| InAction (rest : script)
| AtOnStart (rest : script)
| AtExcept (e : exn)
| AtPop (pending : option exn)
| AtGcSet (pending : option exn)
| AtOnFinish (pending : option exn)
| Finished (r : result unit).

(** A launch-worker thread: its petition, its program counter and
    whether its action has called [assign_pid] yet. *)
Record worker (MS : Type) := mk_worker {
  w_unit : Petition.t MS;
  w_phase : wphase;
  w_assigned : bool
}.
Arguments mk_worker {MS}.
Arguments w_unit {MS}.
Arguments w_phase {MS}.
Arguments w_assigned {MS}.

Inductive daemon := ProcessT | InternalT | FinishedT | SignalT | GcT.

(** The attributes of the processor object; its five long-lived threads
    ([started]: those that run, [entered]: those that have passed the test
    of [while self.running] and are inside a turn of their loop); then what
    lies around it: the result channels (by reference), the operating
    system and logger, every launch-worker thread ever created (a [Thread]
    object is its index here) and the calls made so far. *)
Record State (MS : Type) := mk_state {
  running : bool;
  queue : list (option Message.t);
  finishq : list sig_item;
  manager : MS;
  _internalq : list (item MS);
  _signals : list sig_item;
  _threads : list nat;
  _petitions : gmap Z Z;
  _gc_event : bool;
  started : list daemon;
  entered : list daemon;
  channels : gmap Z (list chan_item);
  world : Cmd.World;
  pool : list (worker MS);
  calls : list call
}.
Arguments mk_state {MS}.
Arguments running {MS}.
Arguments queue {MS}.
Arguments finishq {MS}.
Arguments manager {MS}.
Arguments _internalq {MS}.
Arguments _signals {MS}.
Arguments _threads {MS}.
Arguments _petitions {MS}.
Arguments _gc_event {MS}.
Arguments started {MS}.
Arguments entered {MS}.
Arguments channels {MS}.
Arguments world {MS}.
Arguments pool {MS}.
Arguments calls {MS}.

Section WithManager.

Context {MS : Type} {mgr : Manager MS}.

(** ** Attribute updates *)

Definition set_running (f : bool -> bool) (s : State MS) : State MS :=
  mk_state (f (running s)) (queue s) (finishq s) (manager s) (_internalq s)
    (_signals s) (_threads s) (_petitions s) (_gc_event s) (started s)
    (entered s) (channels s) (world s) (pool s) (calls s).

Definition set_queue (f : list (option Message.t) -> list (option Message.t))
    (s : State MS) : State MS :=
  mk_state (running s) (f (queue s)) (finishq s) (manager s) (_internalq s)
    (_signals s) (_threads s) (_petitions s) (_gc_event s) (started s)
    (entered s) (channels s) (world s) (pool s) (calls s).

Definition set_finishq (f : list sig_item -> list sig_item)
    (s : State MS) : State MS :=
  mk_state (running s) (queue s) (f (finishq s)) (manager s) (_internalq s)
    (_signals s) (_threads s) (_petitions s) (_gc_event s) (started s)
    (entered s) (channels s) (world s) (pool s) (calls s).

Definition set_manager (f : MS -> MS) (s : State MS) : State MS :=
  mk_state (running s) (queue s) (finishq s) (f (manager s)) (_internalq s)
    (_signals s) (_threads s) (_petitions s) (_gc_event s) (started s)
    (entered s) (channels s) (world s) (pool s) (calls s).

Definition set_internalq (f : list (item MS) -> list (item MS))
    (s : State MS) : State MS :=
  mk_state (running s) (queue s) (finishq s) (manager s) (f (_internalq s))
    (_signals s) (_threads s) (_petitions s) (_gc_event s) (started s)
    (entered s) (channels s) (world s) (pool s) (calls s).

Definition set_signals (f : list sig_item -> list sig_item)
    (s : State MS) : State MS :=
  mk_state (running s) (queue s) (finishq s) (manager s) (_internalq s)
    (f (_signals s)) (_threads s) (_petitions s) (_gc_event s) (started s)
    (entered s) (channels s) (world s) (pool s) (calls s).

Definition set_threads (f : list nat -> list nat) (s : State MS) : State MS :=
  mk_state (running s) (queue s) (finishq s) (manager s) (_internalq s)
    (_signals s) (f (_threads s)) (_petitions s) (_gc_event s) (started s)
    (entered s) (channels s) (world s) (pool s) (calls s).

Definition set_petitions (f : gmap Z Z -> gmap Z Z)
    (s : State MS) : State MS :=
  mk_state (running s) (queue s) (finishq s) (manager s) (_internalq s)
    (_signals s) (_threads s) (f (_petitions s)) (_gc_event s) (started s)
    (entered s) (channels s) (world s) (pool s) (calls s).

Definition set_gc_event (f : bool -> bool) (s : State MS) : State MS :=
  mk_state (running s) (queue s) (finishq s) (manager s) (_internalq s)
    (_signals s) (_threads s) (_petitions s) (f (_gc_event s)) (started s)
    (entered s) (channels s) (world s) (pool s) (calls s).

Definition set_started (f : list daemon -> list daemon)
    (s : State MS) : State MS :=
  mk_state (running s) (queue s) (finishq s) (manager s) (_internalq s)
    (_signals s) (_threads s) (_petitions s) (_gc_event s) (f (started s))
    (entered s) (channels s) (world s) (pool s) (calls s).

Definition set_entered (f : list daemon -> list daemon)
    (s : State MS) : State MS :=
  mk_state (running s) (queue s) (finishq s) (manager s) (_internalq s)
    (_signals s) (_threads s) (_petitions s) (_gc_event s) (started s)
    (f (entered s)) (channels s) (world s) (pool s) (calls s).

Definition set_channels (f : gmap Z (list chan_item) -> gmap Z (list chan_item))
    (s : State MS) : State MS :=
  mk_state (running s) (queue s) (finishq s) (manager s) (_internalq s)
    (_signals s) (_threads s) (_petitions s) (_gc_event s) (started s)
    (entered s) (f (channels s)) (world s) (pool s) (calls s).

Definition set_world (f : Cmd.World -> Cmd.World) (s : State MS) : State MS :=
  mk_state (running s) (queue s) (finishq s) (manager s) (_internalq s)
    (_signals s) (_threads s) (_petitions s) (_gc_event s) (started s)
    (entered s) (channels s) (f (world s)) (pool s) (calls s).

Definition set_pool (f : list (worker MS) -> list (worker MS))
    (s : State MS) : State MS :=
  mk_state (running s) (queue s) (finishq s) (manager s) (_internalq s)
    (_signals s) (_threads s) (_petitions s) (_gc_event s) (started s)
    (entered s) (channels s) (world s) (f (pool s)) (calls s).

Definition set_calls (f : list call -> list call) (s : State MS) : State MS :=
  mk_state (running s) (queue s) (finishq s) (manager s) (_internalq s)
    (_signals s) (_threads s) (_petitions s) (_gc_event s) (started s)
    (entered s) (channels s) (world s) (pool s) (f (calls s)).

(** ** Small operations on the shared objects *)

Definition logS (lvl : log_level) (fmt : string) (args : list Z)
    : M (State MS) unit :=
  modify (set_world (Cmd.add_log (mk_log lvl fmt args))).

Definition record (c : call) : M (State MS) unit :=
  modify (set_calls (fun l => l ++ [c])).

(** [self._internalq.put(p)] *)
Definition internalq_put (p : item MS) : M (State MS) unit :=
  modify (set_internalq (fun q => q ++ [p])).

(** [self._gc_event.set()] *)
Definition gc_event_set : M (State MS) unit :=
  modify (set_gc_event (fun _ => true)).

(** [p.queue.put(x)] on the channel object [c] refers to. *)
Definition chan_put (c : Z) (x : chan_item) : M (State MS) unit :=
  modify (set_channels (fun ch => <[c := default [] (ch !! c) ++ [x]]> ch)).

Definition call_convert_to_petition (m : Message.t)
    : M (State MS) (option (Petition.t MS)) :=
  fun s =>
    let '(p, ms) := convert_to_petition m (manager s) in
    (Ok p, set_calls (fun l => l ++ [Call_convert_to_petition (Message.id m)])
             (set_manager (fun _ => ms) s)).

Definition call_on_start (p : Petition.t MS) : M (State MS) unit :=
  (record (Call_on_start (id p)) ;;; modify (set_manager (on_start p)))%py.

Definition call_on_finish (p : Petition.t MS) : M (State MS) unit :=
  (record (Call_on_finish (id p)) ;;; modify (set_manager (on_finish p)))%py.

(** [p.condition(p)] *)
Definition call_condition (p : Petition.t MS) : M (State MS) bool :=
  (record (Call_condition (id p)) ;;;
   gets (fun s => condition p (manager s)))%py.

Definition in_os {A} (m : M Cmd.World A) : M (State MS) A :=
  fun s => match m (world s) with
           | (r, w') => (r, set_world (fun _ => w') s)
           end.

(** ** The public methods *)

(** [exists]: delegated to the manager. *)
Definition exists_ (m : Message.t + Z) : M (State MS) bool :=
  fun s =>
    let '(b, ms) := is_running m (manager s) in
    (Ok b, set_calls (fun l => l ++ [Call_is_running m])
             (set_manager (fun _ => ms) s)).

Definition enqueue (m : Message.t) : M (State MS) unit :=
  modify (set_queue (fun q => q ++ [Some m])).

Definition finish (m : Message.t + Z) : M (State MS) unit :=
  let m := match m with inl msg => Message.id msg | inr n => n end in
  (logS DEBUG "received petition for finish message with ID %d" [m] ;;;
   modify (set_finishq (fun q => q ++ [SigId m])))%py.

(** ** The message relay: one turn of the loop of [_process] *)

Definition already_exists (n : Z) : string :=
  "message with ID " +:+ quoted (str_of_int n) +:+ " already exists"
  +:+ newline.

Definition _process_body (m : option Message.t) : M (State MS) unit :=
  match m with
  | Some m =>
      (logS DEBUG ("converting message " +:+ quoted "%s" +:+ " into a petition")
            [Message.id m] ;;;
       p <- call_convert_to_petition m ;;
       match p with
       | Some p =>
           logS DEBUG "> %s" [id p] ;;;
           ex <- exists_ (inr (id p)) ;;
           if ex then
             logS WARNING "received message (%s) already exists" [id p] ;;;
             chan_put (Petition.queue p) (Line (already_exists (id p))) ;;;
             chan_put (Petition.queue p) (Status 1)
           else internalq_put (Unit p)
       | None =>
           logS DEBUG ("message " +:+ quoted "%s" +:+ " is invalid, skipping...")
                [Message.id m]
       end)%py
  | None => internalq_put EmptyPetition
  end.

(** [None] when [self.queue.get()] blocks on an empty queue. *)
Definition _process_iter (s : State MS) : option (result unit * State MS) :=
  match queue s with
  | [] => None
  | m :: rest =>
      Some ((logS DEBUG "waiting for message..." [] ;;;
             modify (set_queue (fun _ => rest)) ;;;
             _process_body m)%py s)
  end.

(** ** The dispatcher: one turn of the loop of [_internal_process] *)

(** [PriorityQueue.get]: some entry that no other entry is below. *)
Inductive pq_get : list (item MS) -> item MS -> list (item MS) -> Prop :=
| pq_get_least l1 x l2 :
    (forall y, In y (l1 ++ l2) -> Petition.lt y x = false) ->
    pq_get (l1 ++ x :: l2) x (l1 ++ l2).

(** [Thread(target=self._start, args=(p,))] then [start()]: the new
    thread object is the next index of the pool. *)
Definition spawn_launch (p : Petition.t MS) : M (State MS) nat :=
  fun s => (Ok (length (pool s)),
            set_pool (fun ws => ws ++ [mk_worker p AtCondition false]) s).

(** The pause [sleep(random.uniform(0.1, 0.5))] after a spawn only
    spends time and has no counterpart here. *)
Definition _internal_process_body (p : item MS) : M (State MS) unit :=
  match p with
  | Unit u =>
      (logS DEBUG ("creating thread for petition " +:+ quoted "%s") [id u] ;;;
       launch_t <- spawn_launch u ;;
       modify (set_threads (fun l => l ++ [launch_t])))%py
  | EmptyPetition => logS DEBUG "received empty petition" []
  end.

(** The turn in which [self._internalq.get()] hands out [p] and leaves
    [q'] in the queue. *)
Definition _internal_process_iter (p : item MS) (q' : list (item MS))
    : M (State MS) unit :=
  (logS DEBUG "waiting for internal petition..." [] ;;;
   modify (set_internalq (fun _ => q')) ;;;
   _internal_process_body p)%py.

(** ** The signal relay: one turn of the loop of [_signal_handler] *)

Definition _signal_handler_iter (s : State MS)
    : option (result unit * State MS) :=
  match finishq s with
  | [] => None
  | m :: rest =>
      Some ((logS DEBUG "waiting for finish message..." [] ;;;
             modify (set_finishq (fun _ => rest)) ;;;
             modify (set_signals (fun q => q ++ [m])))%py s)
  end.

(** The first [n] turns of that loop; [None] as soon as one blocks. *)
Fixpoint _signal_handler_turns (n : nat) (s : State MS) : option (State MS) :=
  match n with
  | O => Some s
  | S n' => match _signal_handler_iter s with
            | Some (Ok _, s') => _signal_handler_turns n' s'
            | _ => None
            end
  end.

(** ** The signal consumer: one turn of [_internal_signal_handler] *)

(** [m.id if isinstance(m, Message) else m] *)
Definition target_id (m : sig_item) : option Z :=
  match m with
  | SigMessage msg => Some (Message.id msg)
  | SigId n => Some n
  | SigNone => None
  end.

Definition _internal_signal_handler_body (m : sig_item)
    : M (State MS) unit :=
  match target_id m with
  | Some m =>
      (logS DEBUG ("received signal petition for message with ID "
                   +:+ quoted "%d") [m] ;;;
       registry <- gets _petitions ;;
       match registry !! m with
       | None =>
           logS WARNING ("message with ID " +:+ quoted "%d"
                         +:+ " not found or not running!") [m]
       | Some pid =>
           record (Call_kill_proc_tree pid false Cmd.SIGINT) ;;;
           in_os (Cmd.kill_proc_tree pid false Cmd.SIGINT) ;;;
           logS DEBUG ("sent signal to process " +:+ quoted "%d"
                       +:+ " and all of its children") [pid]
       end)%py
  | None => ret tt
  end.

Definition _internal_signal_handler_iter (s : State MS)
    : option (result unit * State MS) :=
  match _signals s with
  | [] => None
  | m :: rest =>
      Some ((logS DEBUG "waiting for internal signal..." [] ;;;
             modify (set_signals (fun _ => rest)) ;;;
             _internal_signal_handler_body m)%py s)
  end.

(** ** The launch worker: [_start] *)

(** The closure [assign_pid] of [_start]. *)
Definition assign_pid (p : Petition.t MS) (proc : proc_arg)
    : M (State MS) unit :=
  let pid := match proc with
             | Pid n => n
             | Handle h => Cmd.popen_pid h
             end in
  (logS DEBUG ("assigning pid to " +:+ quoted "%d") [pid] ;;;
   modify (set_petitions <[id p := pid]>) ;;;
   call_on_start p)%py.

(** [p.action(assign_pid, p)] *)
Fixpoint run_action (p : Petition.t MS) (a : script) : M (State MS) unit :=
  match a with
  | Return => ret tt
  | Raise e => raise e
  | AssignPid proc rest => (assign_pid p proc ;;; run_action p rest)%py
  end.

Definition unhandled : string :=
  "unhandled exception while running petition " +:+ quoted "%s"
  +:+ " -> " +:+ quoted "%s".

Definition _start (p : Petition.t MS) : M (State MS) unit :=
  (logS DEBUG ("launching petition " +:+ quoted "%s") [id p] ;;;
   ready <- call_condition p ;;
   if negb ready then
     logS DEBUG ("petition " +:+ quoted "%s"
                 +:+ " did not satisfy the condition, re-adding to queue")
          [id p] ;;;
     internalq_put (Unit p) ;;;
     gc_event_set
   else
     logS DEBUG ("petition " +:+ quoted "%s" +:+ " satisfied condition")
          [id p] ;;;
     try_finally
       (try_except
          (record (Call_action (id p)) ;;; run_action p (action p))
          Exception
          (fun e => logS WARNING unhandled [id p]))
       (logS DEBUG ("petition " +:+ quoted "%s"
                    +:+ " finished, triggering callbacks") [id p] ;;;
        modify (set_petitions (delete (id p))) ;;;
        gc_event_set ;;;
        call_on_finish p))%py.

(** The same code, one shared-state access at a time: the next program
    counter of a worker and the state it leaves. *)
Definition after {A} (m : M (State MS) A) (s : State MS) : State MS :=
  snd (m s).

Definition worker_step (p : Petition.t MS) (ph : wphase) (s : State MS)
    : wphase * State MS :=
  match ph with
  | AtCondition =>
      let s1 := after (logS DEBUG ("launching petition " +:+ quoted "%s")
                             [id p]) s in
      let s2 := after (record (Call_condition (id p))) s1 in
      if negb (condition p (manager s2)) then
        (AtRequeue,
         after (logS DEBUG ("petition " +:+ quoted "%s"
                  +:+ " did not satisfy the condition, re-adding to queue")
                  [id p]) s2)
      else
        (InAction (action p),
         after (logS DEBUG ("petition " +:+ quoted "%s"
                            +:+ " satisfied condition") [id p] ;;;
                record (Call_action (id p)))%py s2)
  | AtRequeue => (AtRequeueSignal, after (internalq_put (Unit p)) s)
  | AtRequeueSignal => (Finished (Ok tt), after gc_event_set s)
  | InAction Return => (AtPop None, s)
  | InAction (Raise e) => (AtExcept e, s)
  | InAction (AssignPid proc rest) =>
      let pid := match proc with
                 | Pid n => n
                 | Handle h => Cmd.popen_pid h
                 end in
      (AtOnStart rest,
       after (logS DEBUG ("assigning pid to " +:+ quoted "%d") [pid] ;;;
              modify (set_petitions <[id p := pid]>))%py s)
  | AtOnStart rest => (InAction rest, after (call_on_start p) s)
  | AtExcept e =>
      if isinstance e Exception
      then (AtPop None, after (logS WARNING unhandled [id p]) s)
      else (AtPop (Some e), s)
  | AtPop pending =>
      (AtGcSet pending,
       after (logS DEBUG ("petition " +:+ quoted "%s"
                          +:+ " finished, triggering callbacks") [id p] ;;;
              modify (set_petitions (delete (id p))))%py s)
  | AtGcSet pending => (AtOnFinish pending, after gc_event_set s)
  | AtOnFinish pending =>
      (Finished (match pending with None => Ok tt | Some e => Raised e end),
       after (call_on_finish p) s)
  | Finished r => (Finished r, s)
  end.

Fixpoint worker_run (n : nat) (p : Petition.t MS) (ph : wphase)
    (s : State MS) : wphase * State MS :=
  match n with
  | O => (ph, s)
  | S n' => let '(ph', s') := worker_step p ph s in worker_run n' p ph' s'
  end.

Definition calls_assign_pid (ph : wphase) : bool :=
  match ph with InAction (AssignPid _ _) => true | _ => false end.

(** Thread [tid] of the pool takes its next step. *)
Definition worker_step_at (tid : nat) (s : State MS) : option (State MS) :=
  match pool s !! tid with
  | None => None
  | Some w =>
      let '(ph', s') := worker_step (w_unit w) (w_phase w) s in
      Some (set_pool
              <[tid := mk_worker (w_unit w) ph'
                         (w_assigned w || calls_assign_pid (w_phase w))]>
              s')
  end.

(** ** The garbage collector: one wake-up of [_gc] *)

Definition is_finished (ph : wphase) : bool :=
  match ph with Finished _ => true | _ => false end.

(** [thread.is_alive()] *)
Definition is_alive (s : State MS) (thread : nat) : bool :=
  match pool s !! thread with
  | Some w => negb (is_finished (w_phase w))
  | None => false
  end.

(** [list.remove(x)]: the first entry equal to [x] goes. *)
Fixpoint remove_first (x : nat) (l : list nat) : list nat :=
  match l with
  | [] => []
  | y :: rest => if Nat.eqb y x then rest else y :: remove_first x rest
  end.

(** [for thread in self._threads: ...]: the list iterator keeps an
    index [i] into the list object, reads entry [i] of the list as it
    is at that moment, and stops when [i] is past its end; the body
    removes from the very list being walked. *)
Fixpoint gc_scan (fuel i : nat) (s : State MS) : State MS :=
  match fuel with
  | O => s
  | S fuel' =>
      match _threads s !! i with
      | None => s
      | Some thread =>
          if negb (is_alive s thread) then
            gc_scan fuel' (S i)
              (after (logS DEBUG ("pruning thread " +:+ quoted "%s")
                            [Z.of_nat thread] ;;;
                      modify (set_threads (remove_first thread)))%py s)
          else gc_scan fuel' (S i) s
      end
  end.

(** [None] while [self._gc_event.wait()] blocks.  The walk takes at
    most one turn per entry of the ledger. *)
Definition _gc_iter (s : State MS) : option (result unit * State MS) :=
  if _gc_event s then
    let s1 := set_gc_event (fun _ => false) s in
    Some (Ok tt, gc_scan (length (_threads s1)) 0 s1)
  else None.

(** ** [shutdown] *)

(** The method up to its first [join]: the flag, the two sentinels, the
    event.  What follows, the [join]s, waits for other threads and is
    modelled further down, as the steps of the caller among the steps of
    those threads. *)
Definition shutdown_begin : M (State MS) unit :=
  try_except
    (logS INFO "finishing processor" [] ;;;
     modify (set_running (fun _ => false)) ;;;
     modify (set_queue (fun q => q ++ [None])) ;;;
     modify (set_finishq (fun q => q ++ [SigNone])) ;;;
     gc_event_set ;;;
     logS INFO "waiting for pending processes..." [])%py
    Exception
    (fun e => logS CRITICAL "unexpected error during shutdown! -> %s" []).

(** ** Construction: [__new__] and [__init__] *)

(** The singleton object: its flag and, once [__init__] has run to the
    end, its other attributes. *)
Record Instance := mk_instance {
  __must_init__ : bool;
  attrs : option (State MS)
}.

(** The class attribute [Processor.__instance__]. *)
Record Class := mk_class { __instance__ : option Instance }.

Definition __new__ (c : Class) : Instance * Class :=
  match __instance__ c with
  | None =>
      let instance := mk_instance true None in
      (instance, mk_class (Some instance))
  | Some instance => (instance, c)
  end.

(** What [__init__] finds around it: the result channels and the
    operating system. *)
Record Surroundings := mk_surroundings {
  env_channels : gmap Z (list chan_item);
  env_world : Cmd.World
}.

(** [__init__] works on the object [__new__] returned, which is the
    one the class attribute holds.  An argument left out is [None], the
    one value among those a caller passes here that [all] finds false. *)
Definition __init__ (queue : option (list (option Message.t)))
    (finishq : option (list sig_item)) (manager : option MS)
    (env : Surroundings) : M Class unit :=
  fun c =>
    match __instance__ c with
    | None => (Ok tt, c)
    | Some self =>
        if __must_init__ self then
          match queue, finishq, manager with
          | Some q, Some fq, Some m =>
              (Ok tt,
               mk_class (Some (mk_instance false (Some
                 (mk_state true q fq m [] [] [] ∅ false
                    [ProcessT; InternalT; FinishedT; SignalT; GcT] []
                    (env_channels env) (env_world env) [] [])))))
          | _, _, _ =>
              (Raised (mk_exn ValueError
                 "queue & manager objects cannot be empty during init"), c)
          end
        else (Ok tt, c)
    end.

(** [Processor(queue, finishq, manager)] *)
Definition Processor (queue : option (list (option Message.t)))
    (finishq : option (list sig_item)) (manager : option MS)
    (env : Surroundings) : M Class unit :=
  fun c => __init__ queue finishq manager env (snd (__new__ c)).

(** ** The threads together *)

Definition daemon_eqb (a b : daemon) : bool :=
  match a, b with
  | ProcessT, ProcessT | InternalT, InternalT | FinishedT, FinishedT
  | SignalT, SignalT | GcT, GcT => true
  | _, _ => false
  end.

Definition has_daemon (d : daemon) (l : list daemon) : bool :=
  existsb (daemon_eqb d) l.

Definition without_daemon (d : daemon) (l : list daemon) : list daemon :=
  List.filter (fun x => negb (daemon_eqb d x)) l.

(** The end of a turn of thread [d]: back to the head of its loop, or, when
    the turn raised, the end of the thread. *)
Definition leave (d : daemon) (r : result unit) (s : State MS) : State MS :=
  let s := set_entered (without_daemon d) s in
  if is_ok r then s else set_started (without_daemon d) s.

(** One atomic move of the system: a caller of the public methods; a
    long-lived thread passing the test of [while self.running]; the turn of
    a thread that has passed it (which may well complete after [running]
    was cleared: the flag is read at the head of the loop only); one step
    of a launch worker; or the world around the processor moving on (the
    two entry queues are proxies that other processes write to, the
    manager and the channels are objects of their own, and processes come
    and go). *)
Inductive step : State MS -> State MS -> Prop :=
| step_enqueue s m :
    step s (after (enqueue m) s)
| step_finish s m :
    step s (after (finish m) s)
| step_shutdown s :
    step s (after shutdown_begin s)
| step_loop_head s d :
    running s = true ->
    has_daemon d (started s) = true -> has_daemon d (entered s) = false ->
    step s (set_entered (cons d) s)
| step_process s r s' :
    has_daemon ProcessT (entered s) = true ->
    _process_iter s = Some (r, s') -> step s (leave ProcessT r s')
| step_internal_process s p q' :
    has_daemon InternalT (entered s) = true ->
    pq_get (_internalq s) p q' ->
    step s (leave InternalT (Ok tt) (after (_internal_process_iter p q') s))
| step_signal_handler s r s' :
    has_daemon FinishedT (entered s) = true ->
    _signal_handler_iter s = Some (r, s') -> step s (leave FinishedT r s')
| step_internal_signal_handler s r s' :
    has_daemon SignalT (entered s) = true ->
    _internal_signal_handler_iter s = Some (r, s') ->
    step s (leave SignalT r s')
| step_gc s r s' :
    has_daemon GcT (entered s) = true ->
    _gc_iter s = Some (r, s') -> step s (leave GcT r s')
| step_worker s tid s' :
    worker_step_at tid s = Some s' -> step s s'
| step_surroundings s q fq ms ch w :
    step s (set_queue (fun _ => q)
              (set_finishq (fun _ => fq)
                 (set_manager (fun _ => ms)
                    (set_channels (fun _ => ch)
                       (set_world (fun _ => w) s))))).

(** The processor right after a successful first construction. *)
Definition constructed (s : State MS) : Prop :=
  exists q fq m env c,
    Processor (Some q) (Some fq) (Some m) env (mk_class None) = (Ok tt, c)
    /\ (__instance__ c ≫= attrs) = Some s.

Definition reachable (s : State MS) : Prop :=
  exists s0, constructed s0 /\ rtc step s0 s.

(** A worker is inside the registration window from its action's first
    call of [assign_pid] until its cleanup has ended. *)
Definition in_window (w : worker MS) : bool :=
  w_assigned w && negb (is_finished (w_phase w)).

(** ... and can account for an entry only before its own [pop]. *)
Definition before_pop (ph : wphase) : bool :=
  match ph with
  | InAction _ | AtOnStart _ | AtExcept _ | AtPop _ => true
  | _ => false
  end.

Definition holds_entry (w : worker MS) : bool :=
  w_assigned w && before_pop (w_phase w).

(** Every entry of the registry is accounted for by a worker for that id
    whose action has called [assign_pid] and that has not popped yet. *)
Definition registry_inv (s : State MS) : Prop :=
  forall i pid, _petitions s !! i = Some pid ->
    exists tid w,
      pool s !! tid = Some w /\ id (w_unit w) = i /\ holds_entry w = true.

(** The ledger holds no thread twice, and only threads that were started. *)
Definition ledger_inv (s : State MS) : Prop :=
  NoDup (_threads s)
  /\ forall t, In t (_threads s) -> (t < length (pool s))%nat.


(** ** [shutdown], from its first [join] on *)

(** [Thread.is_alive] for one of the five long-lived threads: it is inside
    a turn of its loop, or it may still pass the test at the head of the
    loop.  Otherwise it has ended: its loop found [running] false, or an
    exception ended it. *)
Definition daemon_alive (s : State MS) (d : daemon) : bool :=
  has_daemon d (entered s) || (running s && has_daemon d (started s)).

(** Where the caller of [shutdown] stands: in the [join] of one of the
    five threads; in [for thread in self._threads: thread.join()], at
    entry [i] of the ledger; or past the last line, the method returned. *)
Inductive shutdown_pc :=
| JoinDaemon (d : daemon)
| JoinLaunch (i : nat)
| ShutdownReturned.

(** The next move of the caller, [None] when it has none: [join] blocks
    while the thread joined is alive, and a method that has returned does
    nothing more.  The moves only log; none raises, so the handler of the
    [try] around them never runs.  The walk over the ledger reads entry [i]
    of the list as it is at that moment. *)
Definition shutdown_step (pc : shutdown_pc) (s : State MS)
    : option (shutdown_pc * State MS) :=
  match pc with
  | JoinDaemon d =>
      if daemon_alive s d then None
      else
        Some (match d with
              | ProcessT => (JoinDaemon InternalT, s)
              | InternalT =>
                  (JoinDaemon FinishedT,
                   after (logS INFO "waiting for pending signals..." []) s)
              | FinishedT => (JoinDaemon SignalT, s)
              | SignalT =>
                  (JoinDaemon GcT,
                   after (logS INFO "waiting for garbage collector..." []) s)
              | GcT =>
                  (JoinLaunch 0,
                   after (logS INFO "waiting for pending operations..." []) s)
              end)
  | JoinLaunch i =>
      match _threads s !! i with
      | Some thread =>
          if is_alive s thread then None else Some (JoinLaunch (S i), s)
      | None => Some (ShutdownReturned, after (logS INFO "finished" []) s)
      end
  | ShutdownReturned => None
  end.




(** The caller on its own, for at most [n] moves, as far as it gets. *)
Fixpoint shutdown_run (n : nat) (pc : shutdown_pc) (s : State MS)
    : shutdown_pc * State MS :=
  match n with
  | O => (pc, s)
  | S n' => match shutdown_step pc s with
            | Some (pc', s') => shutdown_run n' pc' s'
            | None => (pc, s)
            end
  end.

End WithManager.

Arguments Instance : clear implicits.
Arguments Class : clear implicits.

End Proc.

(* ===================================================================== *)
(** * A small installation to run the model on *)
(* ===================================================================== *)

Module Demo.

Import Petition Proc.

(** A manager that keeps the ids of the petitions it saw start, turns a
    message with a payload into a petition under the message's id, and
    refuses one without. *)
Definition petition_of (m : Message.t) : Petition.t (list Z) :=
  Petition.mk (Message.id m) 5 (Message.id m) (fun _ => true)
              (AssignPid (Pid 300) Return).

#[export] Instance ledger : Manager (list Z) := {|
  convert_to_petition m ms :=
    (if String.eqb (Message.payload m) "" then None else Some (petition_of m),
     ms);
  is_running m ms :=
    (Cmd.mem (match m with inl msg => Message.id msg | inr n => n end) ms, ms);
  on_start p ms := Petition.id p :: ms;
  on_finish p ms := List.filter (fun n => negb (n =? Petition.id p)) ms
|}.

(** A machine on which process 300 has the children 301 and 302, and 302
    the child 303; the processor itself is process 100. *)
Definition machine : Cmd.World :=
  Cmd.mk_world
    [(1, 0); (100, 1); (300, 100); (301, 300); (302, 300); (303, 302)]
    [] [] []
    [((["echo"; "hello"], None), Ok (["hello"], 0));
     ((["sh"; "-c"; "ls; false"], Some "/srv"), Ok (["a"; "b"], 1));
     ((["./deploy"], None), Raised (mk_exn OSError "Exec format error"))]
    400 100 [].

(** The same machine on which 302 terminates right before the fourth
    library call from now. *)
Definition racing : Cmd.World :=
  Cmd.set_exits [[]; []; []; [302]] machine.

(** The processor as its construction leaves it, and with a few things
    going on. *)
Definition fresh : State (list Z) :=
  mk_state true [] [] [] [] [] [] ∅ false
           [ProcessT; InternalT; FinishedT; SignalT; GcT] [] ∅ machine [] [].

(** A petition that is always ready, and one that waits for petition 7
    to be running. *)
Definition ready (n : Z) (a : script) : Petition.t (list Z) :=
  Petition.mk n 5 n (fun _ => true) a.

Definition waiting (n : Z) : Petition.t (list Z) :=
  Petition.mk n 5 n (fun ms => Cmd.mem 7 ms) Return.

Definition build : Message.t := Message.mk 7 "make all".

(** Petition 7 is running and the same message arrives once more. *)
Definition busy : State (list Z) :=
  set_queue (fun _ => [Some build]) (set_manager (fun _ => [7]) fresh).

(** Petition 9 runs as process 300 and a finish request for it is in. *)
Definition signalled : State (list Z) :=
  set_signals (fun _ => [SigId 9]) (set_petitions (fun _ => {[9 := 300]}) fresh).

(** A request to finish petition 9, which is not running. *)
Definition stale : State (list Z) :=
  set_signals (fun _ => [SigMessage (Message.mk 9 "")]) fresh.

(** Two launch workers have come to their end, both still in the ledger,
    and the collector has been woken. *)
Definition two_finished : State (list Z) :=
  set_gc_event (fun _ => true)
    (set_threads (fun _ => [0%nat; 1%nat])
       (set_pool (fun _ => [mk_worker (ready 1 Return) (Finished (Ok tt)) false;
                            mk_worker (ready 2 Return) (Finished (Ok tt)) false])
          fresh)).

(** The message [build] on its way: put on the entry queue, relayed to
    the internal queue, handed to a launch worker, found ready, and
    registered by the first call of [assign_pid]. *)
Definition enqueued : State (list Z) := after (enqueue build) fresh.

Definition relaying : State (list Z) := set_entered (cons ProcessT) enqueued.

Definition relayed : State (list Z) :=
  leave ProcessT (Ok tt) (from_option snd relaying (_process_iter relaying)).

Definition dispatching : State (list Z) :=
  set_entered (cons InternalT) relayed.

Definition dispatched : State (list Z) :=
  leave InternalT (Ok tt)
    (after (_internal_process_iter (Unit (petition_of build)) []) dispatching).

Definition checked : State (list Z) :=
  default dispatched (worker_step_at 0 dispatched).

Definition launched : State (list Z) :=
  default checked (worker_step_at 0 checked).

Definition surroundings : Surroundings :=
  mk_surroundings ∅ machine.

(** Callbacks that write down what they are called with. *)
Definition note_start : Cmd.callback (U := list string) Cmd.Popen :=
  fun proc _ =>
    modify (fun l => l ++ ["start " +:+ str_of_int (Cmd.popen_pid proc)]).
Definition note_output : Cmd.callback (U := list string) string :=
  fun line _ => modify (fun l => l ++ ["line " +:+ line]).
Definition note_finish : Cmd.callback (U := list string) Z :=
  fun rc _ => modify (fun l => l ++ ["exit " +:+ str_of_int rc]).

(** Callbacks that also write down whether process 400, the next child of
    [machine], is in the process table when they are called. *)
Definition seen (w : Cmd.World) : string :=
  if Cmd.is_live 400 w then " (400 alive)" else " (400 gone)".
Definition see_start : Cmd.callback (U := list string) Cmd.Popen :=
  fun proc w =>
    modify (fun l => l ++ ["start " +:+ str_of_int (Cmd.popen_pid proc)
                           +:+ seen w]).
Definition see_output : Cmd.callback (U := list string) string :=
  fun line w => modify (fun l => l ++ ["line " +:+ line +:+ seen w]).
Definition see_finish : Cmd.callback (U := list string) Z :=
  fun rc w => modify (fun l => l ++ ["exit " +:+ str_of_int rc +:+ seen w]).

(** A stand-in for [shlex.split] that knows one command line. *)
Definition split_words (s : string) : result (list string) :=
  if String.eqb s "echo hello" then Ok ["echo"; "hello"]
  else Raised (mk_exn ValueError "No closing quotation").

(** The same machine on which the caller may not signal process 302. *)
Definition guarded : Cmd.World :=
  Cmd.mk_world (Cmd.procs machine) [302] [] []
               (Cmd.programs machine) 400 100 [].

(** A callback that gives up at the first line it is shown. *)
Definition reject_output : Cmd.callback (U := list string) string :=
  fun line _ => raise (mk_exn RuntimeError "bad line").

(** Three launch workers in the ledger, the one in the middle at its end,
    and the collector woken. *)
Definition one_finished : State (list Z) :=
  set_gc_event (fun _ => true)
    (set_threads (fun _ => [0%nat; 1%nat; 2%nat])
       (set_pool (fun _ => [mk_worker (ready 1 Return) AtCondition false;
                            mk_worker (ready 2 Return) (Finished (Ok tt)) false;
                            mk_worker (ready 3 Return) AtCondition false])
          fresh)).

(** Petition 9 runs as process 300. *)
Definition registered : State (list Z) :=
  set_petitions (fun _ => {[9 := 300]}) fresh.

(** A manager like [ledger], except that a message with the payload
    "status" becomes a petition that only looks: its action returns
    without ever calling [assign_pid]. *)
Definition lax : Manager (list Z) := {|
  convert_to_petition m ms :=
    (Some (if String.eqb (Message.payload m) "status"
           then ready (Message.id m) Return
           else petition_of m),
     ms);
  is_running m ms :=
    (Cmd.mem (match m with inl msg => Message.id msg | inr n => n end) ms, ms);
  on_start p ms := Petition.id p :: ms;
  on_finish p ms := List.filter (fun n => negb (n =? Petition.id p)) ms
|}.

(** While petition 7 of [build] runs as process 300 (its [on_start] is yet
    to come, so the manager does not report it running), a second message
    arrives under the same id and gets a launch worker of its own. *)
Definition status : Message.t := Message.mk 7 "status".

Definition again : State (list Z) := after (enqueue status) launched.

Definition again_relaying : State (list Z) :=
  set_entered (cons ProcessT) again.

Definition again_relayed : State (list Z) :=
  leave ProcessT (Ok tt)
    (from_option snd again_relaying
       (_process_iter (mgr := lax) again_relaying)).

Definition again_dispatching : State (list Z) :=
  set_entered (cons InternalT) again_relayed.

Definition shared : State (list Z) :=
  leave InternalT (Ok tt)
    (after (_internal_process_iter (Unit (ready 7 Return)) [])
       again_dispatching).





End Demo.
(* ===================================================================== *)
(** * Facts about the command utilities *)
(* ===================================================================== *)

Import Cmd.

Lemma warnings_app l l' : warnings (l ++ l') = warnings l ++ warnings l'.
Proof. apply List.filter_app. Qed.

Lemma mem_true_iff x l : mem x l = true <-> In x l.
Proof.
  unfold mem. rewrite existsb_exists. split.
  - intros (y & Hy & Heq). apply Z.eqb_eq in Heq. now subst.
  - intros H. exists x. split; [assumption | apply Z.eqb_refl].
Qed.

Lemma remove_pids_incl gone tbl e : In e (remove_pids gone tbl) -> In e tbl.
Proof. unfold remove_pids. rewrite filter_In. tauto. Qed.

Lemma tick_log w : log (tick w) = log w.
Proof. unfold tick. now destruct (exits w). Qed.

Lemma tick_delivered w : delivered (tick w) = delivered w.
Proof. unfold tick. now destruct (exits w). Qed.

Lemma tick_protected w : protected (tick w) = protected w.
Proof. unfold tick. now destruct (exits w). Qed.

Lemma tick_procs_incl w e : In e (procs (tick w)) -> In e (procs w).
Proof.
  unfold tick. destruct (exits w); simpl; [tauto | apply remove_pids_incl].
Qed.

Lemma tick_not_live pid w : is_live pid w = false -> is_live pid (tick w) = false.
Proof.
  intros H. destruct (is_live pid (tick w)) eqn:E; [| reflexivity].
  unfold is_live in *. apply mem_true_iff in E. unfold pids in *.
  apply in_map_iff in E as (e & He & Hin). apply tick_procs_incl in Hin.
  assert (mem pid (map fst (procs w)) = true) as C.
  { apply mem_true_iff. apply in_map_iff. eauto. }
  congruence.
Qed.

(** C9.  When no process has the pid any more at the time of the call,
    [psutil.Process(pid)] raises [NoSuchProcess]; the handler of
    [kill_proc_tree] catches it, logs one warning and the call returns
    normally, for either value of [including_parent] and any signal.
    Nothing is signalled.  (A pid is not negative; a negative one is a
    [ValueError] of psutil, which is not caught.) *)
Theorem kill_proc_tree_no_such_process pid including_parent sig w :
  0 <= pid ->
  is_live pid w = false ->
  kill_proc_tree pid including_parent sig w =
    (Ok tt,
     add_log (mk_log WARNING "error while trying to kill proccess with id %s" [pid])
             (tick w)).
Proof.
  intros Hpid Hgone. apply tick_not_live in Hgone.
  unfold kill_proc_tree, try_except, bind, psutil_Process.
  destruct (Z.ltb_spec pid 0) as [Hneg | _]; [lia |].
  rewrite Hgone. reflexivity.
Qed.

(** ** The loop over the children *)

Lemma for_each_app {S A} (xs ys : list A) (body : A -> M S unit) s :
  for_each (xs ++ ys) body s =
    match for_each xs body s with
    | (Ok _, s') => for_each ys body s'
    | (Raised e, s') => (Raised e, s')
    end.
Proof.
  revert s. induction xs as [| x xs IH]; intros s; simpl.
  - reflexivity.
  - unfold bind. destruct (body x s) as [[[] | e] s1]; [apply IH | reflexivity].
Qed.

Lemma send_signal_cases proc sig w :
  (send_signal proc sig w = (Ok tt, add_delivered (process_pid proc) sig (tick w))
   /\ is_live (process_pid proc) (tick w) = true)
  \/ (exists e, send_signal proc sig w = (Raised e, tick w)).
Proof.
  unfold send_signal.
  destruct (is_live (process_pid proc) (tick w)); [| right; eauto].
  destruct (mem (process_pid proc) (protected (tick w)));
    [right; eauto | left; auto].
Qed.

(** Whatever stops the loop, the signals delivered are those of the
    children before the stop, in order, and nothing is logged. *)
Lemma for_each_send_signal cs sig w r w' :
  for_each cs (fun c => send_signal c sig) w = (r, w') ->
  exists sent rest,
    cs = sent ++ rest
    /\ delivered w' = delivered w ++ map (fun c => (process_pid c, sig)) sent
    /\ log w' = log w
    /\ protected w' = protected w
    /\ (forall e, In e (procs w') -> In e (procs w))
    /\ (r = Ok tt -> rest = []).
Proof.
  revert w. induction cs as [| c cs IH]; intros w; simpl.
  - unfold ret. intros [= <- <-]. exists [], []. simpl.
    rewrite app_nil_r. repeat split; auto.
  - unfold bind.
    destruct (send_signal_cases c sig w) as [[-> _] | [e ->]].
    + intros H. apply IH in H as (sent & rest & -> & Hd & Hl & Hp & Ht & Hr).
      exists (c :: sent), rest. simpl in *.
      rewrite Hd, Hl, Hp, tick_delivered, tick_log, tick_protected.
      rewrite <- app_assoc. repeat split; auto.
      intros e He. apply tick_procs_incl. auto.
    + intros [= <- <-]. exists [], (c :: cs).
      rewrite tick_delivered, tick_log, tick_protected, app_nil_r.
      repeat split; auto using tick_procs_incl. discriminate.
Qed.

Lemma psutil_Process_ok pid w parent w1 :
  psutil_Process pid w = (Ok parent, w1) ->
  parent = mk_process pid /\ w1 = tick w /\ is_live pid (tick w) = true.
Proof.
  unfold psutil_Process.
  destruct (pid <? 0); [discriminate |].
  destruct (is_live pid (tick w)); [| discriminate].
  intros [= <- <-]. auto.
Qed.

Lemma children_recursive_ok parent w cs w1 :
  children_recursive parent w = (Ok cs, w1) ->
  cs = map mk_process (descendants (procs (tick w)) (process_pid parent))
  /\ w1 = tick w.
Proof.
  unfold children_recursive.
  destruct (is_live (process_pid parent) (tick w)); [| discriminate].
  intros [= <- <-]. auto.
Qed.

(** C10.  The children were enumerated as [before ++ child :: later], the
    ones in [before] took the signal, and [child] is gone when its turn
    comes.  The [NoSuchProcess] of [child.send_signal] ends the loop and is
    caught by the one handler around it: the call returns normally with one
    warning, and the signals delivered are exactly those to [before], so
    none reaches [later] nor, even with [including_parent], the parent. *)
Theorem kill_proc_tree_child_gone
    pid including_parent sig w parent w1 before child later w2 w3 :
  psutil_Process pid w = (Ok parent, w1) ->
  children_recursive parent w1 = (Ok (before ++ child :: later), w2) ->
  for_each before (fun c => send_signal c sig) w2 = (Ok tt, w3) ->
  is_live (process_pid child) (tick w3) = false ->
  exists w',
    kill_proc_tree pid including_parent sig w = (Ok tt, w')
    /\ delivered w' =
         delivered w ++ map (fun c => (process_pid c, sig)) before
    /\ warnings (log w') =
         warnings (log w) ++
         [mk_log WARNING "error while trying to kill proccess with id %s" [pid]].
Proof.
  intros Hparent Hchildren Hbefore Hgone.
  unfold kill_proc_tree, try_except, bind.
  rewrite Hparent, Hchildren, for_each_app, Hbefore. simpl.
  unfold bind, send_signal. rewrite Hgone. simpl.
  eexists. split; [reflexivity |].
  apply for_each_send_signal in Hbefore
    as (sent & rest & Hsplit & Hd & Hl & _ & _ & Hrest).
  rewrite (Hrest eq_refl), app_nil_r in Hsplit. subst sent.
  apply psutil_Process_ok in Hparent as (_ & -> & _).
  apply children_recursive_ok in Hchildren as (_ & ->).
  simpl. rewrite !tick_delivered, !tick_log, Hd, Hl, !tick_delivered, !tick_log.
  split; [reflexivity |].
  now rewrite warnings_app.
Qed.

(** ** Who can be signalled: descendants, now and later *)

Lemma has_ancestor_more_fuel n m tbl c anc :
  (n <= m)%nat -> has_ancestor n tbl c anc = true ->
  has_ancestor m tbl c anc = true.
Proof.
  revert m c. induction n as [| n IH]; intros m c Hle; simpl; [discriminate |].
  destruct m as [| m]; [lia |]. simpl.
  destruct (ppid_of tbl c) as [pp |]; [| discriminate].
  rewrite !orb_true_iff. intros [H | H]; [now left | right].
  apply IH; [lia | assumption].
Qed.

Lemma ppid_of_remove_pids gone tbl c pp :
  ppid_of (remove_pids gone tbl) c = Some pp -> ppid_of tbl c = Some pp.
Proof.
  unfold ppid_of, remove_pids.
  induction tbl as [| [q qq] tbl IH]; simpl; [discriminate |].
  destruct (Z.eqb_spec q c) as [-> | Hne].
  - destruct (mem c gone) eqn:Hgone; simpl.
    + intros H. exfalso.
      destruct (List.find _ _) as [[q' qq'] |] eqn:F; [| discriminate].
      apply find_some in F as [Hin Heq]. simpl in Heq.
      apply Z.eqb_eq in Heq. subst q'.
      apply filter_In in Hin as [_ Hkeep]. simpl in Hkeep.
      rewrite Hgone in Hkeep. discriminate.
    + rewrite Z.eqb_refl. auto.
  - destruct (mem q gone); simpl; [exact IH |].
    destruct (Z.eqb_spec q c); [contradiction | exact IH].
Qed.

Lemma remove_pids_length gone tbl :
  (length (remove_pids gone tbl) <= length tbl)%nat.
Proof. apply List.filter_length_le. Qed.

Lemma has_ancestor_remove_pids n gone tbl c anc :
  has_ancestor n (remove_pids gone tbl) c anc = true ->
  has_ancestor n tbl c anc = true.
Proof.
  revert c. induction n as [| n IH]; intros c; simpl; [discriminate |].
  destruct (ppid_of (remove_pids gone tbl) c) as [pp |] eqn:E; [| discriminate].
  rewrite (ppid_of_remove_pids _ _ _ _ E), !orb_true_iff.
  intros [H | H]; [now left | right; now apply IH].
Qed.

Lemma is_descendant_tick w c pid :
  is_descendant (tick w) c pid = true -> is_descendant w c pid = true.
Proof.
  unfold is_descendant, tick. destruct (exits w) as [| gone later]; [auto |].
  simpl. intros H. apply has_ancestor_remove_pids in H.
  eapply has_ancestor_more_fuel; [apply remove_pids_length | exact H].
Qed.

Lemma descendants_spec tbl pid c :
  In c (descendants tbl pid) <->
  In c (map fst tbl) /\ has_ancestor (length tbl) tbl c pid = true.
Proof. unfold descendants. now rewrite filter_In. Qed.

(** Without the parent, whatever the outcome: the signals go to processes
    that descend from [pid], to nobody else, and the only thing logged is
    the warning of the handler. *)
Lemma kill_proc_tree_children_only pid sig w r w' :
  kill_proc_tree pid false sig w = (r, w') ->
  exists sent,
    delivered w' = delivered w ++ map (fun c => (c, sig)) sent
    /\ (forall c, In c sent -> is_descendant w c pid = true).
Proof.
  unfold kill_proc_tree, try_except, bind.
  destruct (psutil_Process pid w) as [[parent | e] w1] eqn:E1.
  - apply psutil_Process_ok in E1 as (-> & -> & Hlive).
    destruct (children_recursive _ _) as [[cs | e] w2] eqn:E2.
    + apply children_recursive_ok in E2 as (-> & ->). simpl.
      destruct (for_each _ _ _) as [r3 w3] eqn:E3.
      apply for_each_send_signal in E3
        as (sent & rest & Hsplit & Hd & _).
      assert (Hdesc : forall c, In c (map process_pid sent) ->
                is_descendant w c pid = true).
      { intros c Hc. apply in_map_iff in Hc as (pc & <- & Hin).
        assert (Hin' : In pc (sent ++ rest)) by (apply in_or_app; now left).
        rewrite <- Hsplit in Hin'.
        apply in_map_iff in Hin' as (c & <- & Hc). simpl.
        apply descendants_spec in Hc as [_ Hc].
        now apply is_descendant_tick, is_descendant_tick. }
      assert (Hd' : delivered w3 =
                delivered w ++ map (fun c => (c, sig)) (map process_pid sent)).
      { rewrite Hd, !tick_delivered, map_map. reflexivity. }
      destruct r3 as [[] | e].
      * unfold ret. intros [= <- <-]. eauto.
      * destruct (isinstance e NoSuchProcess); intros [= <- <-]; eauto.
    + assert (Hw2 : w2 = tick (tick w)).
      { unfold children_recursive in E2. simpl in E2.
        destruct (is_live pid (tick (tick w)));
          [discriminate | now injection E2]. }
      subst w2.
      destruct (isinstance e NoSuchProcess); intros [= <- <-]; exists [];
        simpl; rewrite !tick_delivered, app_nil_r; split; auto; contradiction.
  - assert (Hw1 : w1 = tick w).
    { unfold psutil_Process in E1.
      destruct (pid <? 0); [now injection E1 |].
      destruct (is_live pid (tick w)); now injection E1. }
    subst w1.
    destruct (isinstance e NoSuchProcess); intros [= <- <-]; exists [];
      simpl; rewrite tick_delivered, app_nil_r; split; auto; contradiction.
Qed.

(** ** A machine on which nothing else happens *)

Lemma tick_quiet w : exits w = [] -> tick w = w.
Proof. unfold tick. now intros ->. Qed.

Lemma for_each_send_signal_quiet cs sig w :
  exits w = [] -> protected w = [] ->
  (forall c, In c cs -> is_live (process_pid c) w = true) ->
  exists w',
    for_each cs (fun c => send_signal c sig) w = (Ok tt, w')
    /\ delivered w' = delivered w ++ map (fun c => (process_pid c, sig)) cs
    /\ log w' = log w.
Proof.
  revert w. induction cs as [| c cs IH]; intros w Hex Hprot Hlive; simpl.
  - exists w. now rewrite app_nil_r.
  - assert (Hsend : send_signal c sig w =
                      (Ok tt, add_delivered (process_pid c) sig w)).
    { unfold send_signal. rewrite (tick_quiet _ Hex), Hprot.
      now rewrite (Hlive c (or_introl eq_refl)). }
    unfold bind. rewrite Hsend.
    destruct (IH (add_delivered (process_pid c) sig w)) as (w' & -> & Hd & Hl);
      auto.
    { intros c' Hc'. apply (Hlive c'). now right. }
    exists w'. simpl in Hd, Hl. rewrite Hd, Hl, <- app_assoc. auto.
Qed.

Lemma kill_proc_tree_quiet pid sig w :
  exits w = [] -> protected w = [] -> 0 <= pid -> is_live pid w = true ->
  exists w',
    kill_proc_tree pid false sig w = (Ok tt, w')
    /\ delivered w' =
         delivered w ++ map (fun c => (c, sig)) (descendants (procs w) pid)
    /\ log w' = log w.
Proof.
  intros Hex Hprot Hpid Hlive.
  assert (Hparent : psutil_Process pid w = (Ok (mk_process pid), w)).
  { unfold psutil_Process. rewrite (tick_quiet _ Hex), Hlive.
    destruct (Z.ltb_spec pid 0); [lia | reflexivity]. }
  assert (Hchildren : children_recursive (mk_process pid) w =
            (Ok (map mk_process (descendants (procs w) pid)), w)).
  { unfold children_recursive. simpl. now rewrite (tick_quiet _ Hex), Hlive. }
  unfold kill_proc_tree, try_except, bind. rewrite Hparent, Hchildren.
  destruct (for_each_send_signal_quiet
              (map mk_process (descendants (procs w) pid)) sig w Hex Hprot)
    as (w' & -> & Hd & Hl).
  { intros c Hc. apply in_map_iff in Hc as (q & <- & Hq). simpl.
    apply descendants_spec in Hq as [Hq _].
    unfold is_live, pids. now apply mem_true_iff. }
  exists w'. rewrite map_map in Hd. simpl in Hd. auto.
Qed.

(** ** The command runner *)

Section RunnerFacts.

Variable shlex_split : string -> result (list string).
Context {U : Type}.

Lemma for_each_in_user {A} (xs : list A) (f : A -> World -> M U unit) w u :
  for_each xs (fun x => in_user (f x)) (w, u) =
    (fst (for_each xs (fun x => f x w) u),
     (w, snd (for_each xs (fun x => f x w) u))).
Proof.
  revert u. induction xs as [| x xs IH]; intros u; simpl; [reflexivity |].
  unfold bind, in_user at 1. simpl.
  destruct (f x w u) as [[[] | e] u']; [apply IH | reflexivity].
Qed.

Lemma Popen_spawn_live command cwd w proc w1 :
  Popen_spawn command cwd w = (Ok proc, w1) ->
  is_live (popen_pid proc) w1 = true.
Proof.
  unfold Popen_spawn.
  destruct (program_of w command cwd) as [[out rc] | e]; [| discriminate].
  intros [= <- <-]. unfold is_live, pids. simpl.
  apply mem_true_iff. rewrite map_app. apply in_or_app. right. now left.
Qed.

(** C8.  For a command that parses and a program the system can spawn in
    the working directory given, printing [out] and exiting with [rc]: the
    child is spawned right after the two debug records, and [w1] is the
    machine as the spawn leaves it, with the child in the process table.
    [on_start] is called first, on the handle of the child, on the caller's
    state as it was and on the machine [w1] itself: nothing has happened
    since the spawn, and the child is alive in what the callback finds.
    Then [on_output] is called on each line of [out] in order, the child
    still there; then, the child waited for and gone from the table,
    [on_finish] on [rc]; and [rc] is returned.  The callbacks are taken to
    return normally, and one left out is [empty]. *)
Theorem run_command_round_trip
    cmd (on_start : option (@callback U Popen))
    (on_output : option (@callback U string))
    (on_finish : option (@callback U Z))
    cwd command out rc w u u1 u2 u3 :
  command_of shlex_split cmd = Ok command ->
  program_of w command cwd = Ok (out, rc) ->
  let proc := mk_popen (next_pid w) out rc in
  let w0 := add_log (mk_log DEBUG "> %s" [])
              (add_log (mk_log DEBUG "$ %s" []) w) in
  let w1 := set_next_pid (next_pid w + 1)
              (set_procs (fun tbl => tbl ++ [(next_pid w, self_pid w)]) w0) in
  let w2 := snd (Popen_exit proc (snd (Popen_wait proc w1))) in
  or_empty on_start proc w1 u = (Ok tt, u1) ->
  for_each out (fun line => or_empty on_output line w1) u1 = (Ok tt, u2) ->
  or_empty on_finish rc w2 u2 = (Ok tt, u3) ->
  Popen_spawn command cwd w0 = (Ok proc, w1)
  /\ is_live (popen_pid proc) w1 = true
  /\ is_live (popen_pid proc) w2 = false
  /\ run_command shlex_split cmd on_start on_output on_finish cwd (w, u)
     = (Ok rc, (w2, u3)).
Proof.
  intros Hcmd Hprog proc w0 w1 w2 Hstart Hout Hfinish.
  assert (Hspawn : Popen_spawn command cwd w0 = (Ok proc, w1)).
  { unfold Popen_spawn.
    change (program_of w0 command cwd) with (program_of w command cwd).
    now rewrite Hprog. }
  split; [exact Hspawn |].
  split; [exact (Popen_spawn_live _ _ _ _ _ Hspawn) |].
  split.
  { unfold w2, Popen_exit, Popen_wait, bind, ret, is_live, pids. simpl.
    apply not_true_is_false. intros Hin. apply mem_true_iff in Hin.
    apply in_map_iff in Hin as ([pid ppid] & Hpid & Hin).
    unfold remove_pids in Hin. apply filter_In in Hin as [Hin _].
    apply filter_In in Hin as [_ Hkeep]. simpl in Hpid, Hkeep. subst pid.
    unfold mem in Hkeep. simpl in Hkeep. now rewrite Z.eqb_refl in Hkeep. }
  unfold run_command, with_Popen, bind at 1. rewrite Hcmd.
  unfold bind at 1. unfold in_world at 1, log_debug at 1, modify at 1. simpl.
  unfold bind at 1. unfold in_world at 1, log_debug at 1, modify at 1. simpl.
  unfold bind at 1, bind at 1, in_world at 1. simpl. fold w0.
  rewrite Hspawn. unfold try_finally, bind at 1. unfold in_user at 1.
  simpl. fold proc. fold w1. rewrite Hstart. unfold bind at 1.
  rewrite for_each_in_user. simpl. rewrite Hout. simpl.
  unfold in_world, Popen_exit, Popen_wait, bind, ret, in_user. simpl.
  unfold w2, Popen_exit, Popen_wait, bind, ret in Hfinish. simpl in Hfinish.
  rewrite Hfinish. reflexivity.
Qed.

End RunnerFacts.

(* ===================================================================== *)
(** * Facts about the processor *)
(* ===================================================================== *)

Section ProcessorFacts.

Import Petition Proc.

Context {MS : Type} {mgr : Manager MS}.

(** ** The message relay *)

Lemma chan_put_twice c x y (ch : gmap Z (list chan_item)) :
  <[c := default [] (<[c := default [] (ch !! c) ++ [x]]> ch !! c) ++ [y]]>
    (<[c := default [] (ch !! c) ++ [x]]> ch)
  = <[c := default [] (ch !! c) ++ [x; y]]> ch.
Proof.
  rewrite lookup_insert_eq, insert_insert_eq. simpl.
  now rewrite <- app_assoc.
Qed.

(** C1.  The message at the head of the entry queue converts into a
    petition [p] for whose id [exists] answers true.  Then this turn of the
    relay puts the error line and after it the status [1] on the channel
    [p.queue] refers to (and on no other), logs one warning, and leaves the
    internal priority queue, the registry, the ledger and the workers as
    they were. *)
Theorem duplicate_running_rejected (s : State MS) m rest p ms1 ms2 :
  queue s = Some m :: rest ->
  convert_to_petition m (manager s) = (Some p, ms1) ->
  is_running (inr (id p)) ms1 = (true, ms2) ->
  exists s',
    _process_iter s = Some (Ok tt, s')
    /\ channels s' =
         <[Petition.queue p :=
             default [] (channels s !! Petition.queue p)
             ++ [Line (already_exists (id p)); Status 1]]> (channels s)
    /\ _internalq s' = _internalq s
    /\ _petitions s' = _petitions s
    /\ _threads s' = _threads s
    /\ pool s' = pool s
    /\ warnings (Cmd.log (world s')) =
         warnings (Cmd.log (world s))
         ++ [mk_log WARNING "received message (%s) already exists" [id p]].
Proof.
  intros Hq Hconv Hrun.
  unfold _process_iter. rewrite Hq.
  eexists. split.
  - unfold bind, logS, modify, _process_body, bind, call_convert_to_petition.
    simpl. rewrite Hconv. unfold exists_. simpl. rewrite Hrun. simpl.
    reflexivity.
  - simpl. rewrite chan_put_twice. repeat split.
    rewrite !warnings_app. simpl. now rewrite !app_nil_r.
Qed.

(** ** The launch worker *)

Lemma run_action_spec p a (s : State MS) :
  exists s',
    run_action p a s =
      (match outcome a with None => Ok tt | Some e => Raised e end, s')
    /\ calls s' = calls s ++ repeat (Call_on_start (id p)) (assign_calls a)
    /\ delete (id p) (_petitions s') = delete (id p) (_petitions s)
    /\ manager s' = Nat.iter (assign_calls a) (on_start p) (manager s)
    /\ warnings (Cmd.log (world s')) = warnings (Cmd.log (world s))
    /\ _internalq s' = _internalq s
    /\ _gc_event s' = _gc_event s
    /\ _threads s' = _threads s
    /\ pool s' = pool s
    /\ channels s' = channels s.
Proof.
  revert s. induction a as [| e | proc rest IH]; intros s.
  - exists s. simpl. rewrite app_nil_r. repeat split.
  - exists s. simpl. rewrite app_nil_r. repeat split.
  - simpl run_action. unfold bind at 1.
    destruct (assign_pid p proc s) as [r1 s1] eqn:E1.
    unfold assign_pid, bind, logS, modify, call_on_start, bind, record,
      modify in E1.
    injection E1 as <- <-.
    destruct (IH (snd (assign_pid p proc s)))
      as (s' & Hrun & Hc & Hp & Hm & Hw & Hq & Hg & Ht & Hpool & Hch).
    unfold assign_pid, bind, logS, modify, call_on_start, bind, record,
      modify in *. simpl in *.
    exists s'. rewrite Hrun, Hc, Hp, Hm, Hw, Hq, Hg, Ht, Hpool, Hch.
    repeat split.
    + now rewrite <- app_assoc.
    + apply delete_insert_eq.
    + clear. induction (assign_calls rest) as [| n IHn]; simpl;
        [reflexivity | now rewrite IHn].
    + rewrite warnings_app. simpl. now rewrite app_nil_r.
Qed.

(** C6.  When the condition of [p] is false, [_start] puts that same [p]
    back on the internal priority queue (where it may be taken next as
    soon as nothing queued is below its unchanged priority), sets the GC event
    and returns; it calls the condition and nothing else: not the action,
    not a hook of the manager, and the registry is untouched. *)
Theorem not_ready_requeued (s : State MS) p :
  condition p (manager s) = false ->
  exists s',
    _start p s = (Ok tt, s')
    /\ _internalq s' = _internalq s ++ [Unit p]
    /\ ((forall y, In y (_internalq s) -> Petition.lt y (Unit p) = false) ->
        pq_get (_internalq s') (Unit p) (_internalq s))
    /\ _gc_event s' = true
    /\ calls s' = calls s ++ [Call_condition (id p)]
    /\ manager s' = manager s
    /\ _petitions s' = _petitions s
    /\ pool s' = pool s.
Proof.
  intros Hcond.
  unfold _start, bind, logS, modify, call_condition, bind, record, modify, gets.
  simpl. rewrite Hcond. simpl.
  eexists. split; [reflexivity |]. simpl. repeat split.
  intros Hleast.
  rewrite <- (app_nil_r (_internalq s)) at 2.
  constructor. now rewrite app_nil_r.
Qed.

(** C2, as amended.  When the condition of [p] is true, whatever the
    action does, [_start] ends with the id of [p] out of the registry (and
    the other ids as they were), the GC event set and [on_finish] called
    exactly once, last, after one [on_start] per call of [assign_pid].  An
    exception of the action that is an instance of [Exception] is logged as
    a warning and [_start] returns normally; one that is not leaves
    [_start] after the same cleanup, unlogged. *)
Theorem ready_runs_and_cleans_up (s : State MS) p :
  condition p (manager s) = true ->
  exists s',
    _start p s =
      (match outcome (action p) with
       | None => Ok tt
       | Some e => if isinstance e Exception then Ok tt else Raised e
       end, s')
    /\ _petitions s' = delete (id p) (_petitions s)
    /\ _gc_event s' = true
    /\ calls s' =
         calls s ++ [Call_condition (id p); Call_action (id p)]
         ++ repeat (Call_on_start (id p)) (assign_calls (action p))
         ++ [Call_on_finish (id p)]
    /\ manager s' =
         on_finish p (Nat.iter (assign_calls (action p)) (on_start p) (manager s))
    /\ warnings (Cmd.log (world s')) =
         warnings (Cmd.log (world s)) ++
         match outcome (action p) with
         | Some e => if isinstance e Exception
                     then [mk_log WARNING unhandled [id p]] else []
         | None => []
         end
    /\ _internalq s' = _internalq s.
Proof.
  intros Hcond.
  unfold _start, bind at 1. unfold logS at 1, modify at 1.
  unfold bind at 1. unfold call_condition, bind at 1, record at 1, modify at 1,
    gets at 1.
  simpl. rewrite Hcond. simpl.
  unfold bind at 1. unfold logS at 1, modify at 1.
  unfold try_finally, try_except, bind at 1. unfold record at 1, modify at 1.
  match goal with
  | |- context [run_action p (action p) ?s0] =>
      destruct (run_action_spec p (action p) s0)
        as (s1 & Hrun & Hc & Hp & Hm & Hw & Hq & Hg & Ht & Hpool & Hch)
  end.
  rewrite Hrun. simpl in Hc, Hp, Hm, Hw, Hq.
  rewrite !warnings_app in Hw. simpl in Hw. rewrite !app_nil_r in Hw.
  destruct (outcome (action p)) as [e |]; [destruct (isinstance e Exception) |];
    (eexists; split; [reflexivity |]); simpl;
    rewrite ?warnings_app, ?Hc, ?Hp, ?Hm, ?Hw, ?Hq; simpl;
    rewrite ?app_nil_r, <- ?app_assoc; simpl; repeat split; reflexivity.
Qed.

(** ** The worker machine agrees with [_start] *)

Lemma worker_run_add n m p ph (s : State MS) :
  worker_run (n + m) p ph s =
    worker_run m p (fst (worker_run n p ph s)) (snd (worker_run n p ph s)).
Proof.
  revert ph s. induction n as [| n IH]; intros ph s; simpl; [reflexivity |].
  destruct (worker_step p ph s) as [ph' s']. apply IH.
Qed.

Lemma worker_run_finished n p r (s : State MS) :
  worker_run n p (Finished r) s = (Finished r, s).
Proof. induction n as [| n IH]; simpl; auto. Qed.

Lemma worker_run_action p a (s : State MS) :
  worker_run (2 * assign_calls a + 1) p (InAction a) s =
    (match outcome a with None => AtPop None | Some e => AtExcept e end,
     snd (run_action p a s)).
Proof.
  revert s. induction a as [| e | proc rest IH]; intros s; try reflexivity.
  replace (2 * assign_calls (AssignPid proc rest) + 1)%nat
    with (2 + (2 * assign_calls rest + 1))%nat by (simpl; lia).
  rewrite worker_run_add. cbn [worker_run worker_step fst snd].
  rewrite IH. cbn [outcome run_action]. f_equal.
Qed.

Lemma start_ready p (s : State MS) :
  condition p (manager s) = true ->
  exists s2,
    worker_step p AtCondition s = (InAction (action p), s2)
    /\ _start p s =
         (let (r1, s3) := run_action p (action p) s2 in
          match r1 with
          | Ok _ => (Ok tt, snd (worker_run 3 p (AtPop None) s3))
          | Raised e =>
              (if isinstance e Exception then Ok tt else Raised e,
               snd (worker_run 4 p (AtExcept e) s3))
          end).
Proof.
  intros Hcond. eexists. split.
  - unfold worker_step, after, bind, logS, record, modify. simpl.
    rewrite Hcond. reflexivity.
  - unfold _start, bind at 1. unfold logS at 1, modify at 1.
    unfold bind at 1. unfold call_condition, bind at 1, record at 1,
      modify at 1, gets at 1.
    simpl. rewrite Hcond. simpl.
    unfold bind at 1. unfold logS at 1, modify at 1.
    unfold try_finally, try_except, bind at 1. unfold record at 1, modify at 1.
    destruct (run_action p (action p) _) as [[[] | e] s3]; [reflexivity |].
    destruct (isinstance e Exception); reflexivity.
Qed.

(** Enough steps bring a worker from its first line to the outcome and
    the state of [_start]. *)
Theorem worker_run_is_start p (s : State MS) n :
  (2 * assign_calls (action p) + 6 <= n)%nat ->
  worker_run n p AtCondition s = (Finished (fst (_start p s)), snd (_start p s)).
Proof.
  intros Hn.
  destruct (condition p (manager s)) eqn:Hcond.
  - destruct (start_ready p s Hcond) as (s2 & Hfirst & ->).
    replace n with (1 + ((2 * assign_calls (action p) + 1)
                         + (4 + (n - (2 * assign_calls (action p) + 6)))))%nat
      by lia.
    rewrite worker_run_add. cbn [worker_run]. rewrite Hfirst. cbn [fst snd].
    rewrite worker_run_add, worker_run_action. cbn [fst snd].
    destruct (run_action_spec p (action p) s2) as (s3 & Hrun & _).
    rewrite Hrun. cbn [snd].
    rewrite worker_run_add.
    destruct (outcome (action p)) as [e |].
    + cbn [worker_run worker_step fst snd].
      destruct (isinstance e Exception); cbn [worker_step fst snd];
        rewrite worker_run_finished; reflexivity.
    + cbn [worker_run worker_step fst snd].
      rewrite !worker_run_finished. reflexivity.
  - replace n with (3 + (n - 3))%nat by lia.
    rewrite worker_run_add.
    assert (Hthree : worker_run 3 p AtCondition s =
                     (Finished (fst (_start p s)), snd (_start p s))).
    { unfold _start, worker_run, worker_step, after, bind, logS, record,
        modify, call_condition, bind, record, modify, gets,
        internalq_put, gc_event_set, modify.
      simpl. rewrite Hcond. reflexivity. }
    rewrite Hthree. cbn [fst snd]. apply worker_run_finished.
Qed.

(** ** The signal consumer *)

(** C3.  The signal consumer takes a request for id [n].  If the registry
    holds [pid] for [n], it calls [kill_proc_tree pid] with
    [including_parent = False] and [SIGINT]: every signal delivered is a
    [SIGINT] to a descendant of [pid], none goes to [pid] itself (which is
    not its own descendant), and on a machine where nothing else happens
    all of the descendants get it; the registry is unchanged.  If the
    registry has no [n], the turn ends normally with one warning logged,
    nothing called, nothing signalled and the registry unchanged. *)
Theorem signal_consumer_interrupts_children (s : State MS) m rest n :
  _signals s = m :: rest ->
  target_id m = Some n ->
  match _petitions s !! n with
  | Some pid =>
      exists r s' sent,
        _internal_signal_handler_iter s = Some (r, s')
        /\ calls s' = calls s ++ [Call_kill_proc_tree pid false Cmd.SIGINT]
        /\ Cmd.delivered (world s') =
             Cmd.delivered (world s) ++ map (fun c => (c, Cmd.SIGINT)) sent
        /\ (forall c, In c sent -> Cmd.is_descendant (world s) c pid = true)
        /\ (Cmd.is_descendant (world s) pid pid = false -> ~ In pid sent)
        /\ (Cmd.exits (world s) = [] -> Cmd.protected (world s) = [] ->
            0 <= pid -> Cmd.is_live pid (world s) = true ->
            r = Ok tt /\ sent = Cmd.descendants (Cmd.procs (world s)) pid)
        /\ _petitions s' = _petitions s
  | None =>
      exists s',
        _internal_signal_handler_iter s = Some (Ok tt, s')
        /\ _petitions s' = _petitions s
        /\ calls s' = calls s
        /\ Cmd.delivered (world s') = Cmd.delivered (world s)
        /\ warnings (Cmd.log (world s')) =
             warnings (Cmd.log (world s))
             ++ [mk_log WARNING ("message with ID " +:+ quoted "%d"
                                 +:+ " not found or not running!") [n]]
  end.
Proof.
  intros Hsig Htarget.
  destruct (_petitions s !! n) as [pid |] eqn:Hreg.
  - unfold _internal_signal_handler_iter. rewrite Hsig.
    unfold bind at 1. unfold logS at 1, modify at 1.
    unfold bind at 1. unfold modify at 1.
    unfold _internal_signal_handler_body. rewrite Htarget.
    unfold bind at 1. unfold logS at 1, modify at 1.
    unfold bind at 1. unfold gets at 1.
    cbn [_petitions set_world set_signals]. rewrite Hreg.
    unfold bind at 1. unfold record at 1, modify at 1.
    unfold bind at 1. unfold in_os at 1.
    cbn [world set_world set_signals set_calls].
    match goal with
    | |- context [Cmd.kill_proc_tree pid false Cmd.SIGINT ?w0] =>
        set (w1 := w0);
        destruct (Cmd.kill_proc_tree pid false Cmd.SIGINT w1) as [r w'] eqn:Hkill
    end.
    destruct (kill_proc_tree_children_only _ _ _ _ _ Hkill)
      as (sent & Hd & Hdesc).
    assert (Hquiet : Cmd.exits (world s) = [] -> Cmd.protected (world s) = [] ->
              0 <= pid -> Cmd.is_live pid (world s) = true ->
              r = Ok tt /\ sent = Cmd.descendants (Cmd.procs (world s)) pid).
    { intros Hex Hprot Hpid Hlive.
      destruct (kill_proc_tree_quiet pid Cmd.SIGINT w1) as (w'' & Hk & Hd' & _);
        auto.
      rewrite Hkill in Hk. injection Hk as -> <-. split; [reflexivity |].
      rewrite Hd in Hd'. apply app_inv_head in Hd'.
      clear -Hd'. simpl in Hd'.
      revert Hd'. generalize (Cmd.descendants (Cmd.procs (world s)) pid).
      induction sent as [| c sent IH]; intros [| d ds]; simpl; try discriminate;
        [reflexivity |].
      intros [= -> H]. f_equal. now apply IH. }
    assert (Hself : Cmd.is_descendant (world s) pid pid = false -> ~ In pid sent).
    { intros Hno Hin. apply Hdesc in Hin. unfold Cmd.is_descendant in *.
      simpl in Hin. congruence. }
    destruct r as [[] | e];
      (eexists _, _, sent; split; [reflexivity |]);
      simpl; rewrite Hd; repeat split; auto; now apply Hquiet.
  - eexists. split.
    + unfold _internal_signal_handler_iter. rewrite Hsig.
      unfold _internal_signal_handler_body. rewrite Htarget.
      unfold bind, logS, modify, gets.
      cbn [_petitions set_world set_signals]. rewrite Hreg. reflexivity.
    + simpl. repeat split.
      rewrite !warnings_app. simpl. now rewrite !app_nil_r.
Qed.

(** ** Construction *)

(** C5, as amended.  With an argument missing on the very first
    construction, [ValueError] is raised and none of the processor's
    attributes is set (no queue, no registry, no thread started); the
    object [__new__] allocated stays in [Processor.__instance__], still
    marked [__must_init__], so a later construction behaves as a first one
    would: with all three arguments it initialises that object, with one
    missing it raises again. *)
Theorem failed_first_construction
    (queue : option (list (option Message.t))) (finishq : option (list sig_item))
    (manager : option MS) (env : Surroundings) :
  queue = None \/ finishq = None \/ manager = None ->
  exists c,
    Processor queue finishq manager env (mk_class None) =
      (Raised (mk_exn ValueError
                 "queue & manager objects cannot be empty during init"), c)
    /\ __instance__ c = Some (mk_instance true None)
    /\ (forall q fq m env',
          Processor (Some q) (Some fq) (Some m) env' c =
          Processor (Some q) (Some fq) (Some m) env' (mk_class None))
    /\ (forall q fq m env',
          q = None \/ fq = None \/ m = None ->
          Processor q fq m env' c =
          Processor q fq m env' (mk_class None)).
Proof.
  intros Hmissing.
  exists (mk_class (Some (mk_instance true None))).
  split; [| split; [reflexivity | split]].
  - unfold Processor, __new__, __init__. simpl.
    destruct queue, finishq, manager; try reflexivity.
    destruct Hmissing as [H | [H | H]]; discriminate.
  - reflexivity.
  - reflexivity.
Qed.

(** ** The garbage collector *)

Lemma remove_first_length x l : (length (remove_first x l) <= length l)%nat.
Proof.
  induction l as [| y l IH]; simpl; [lia |].
  destruct (Nat.eqb y x); simpl; lia.
Qed.

(** The walk is over before its turns run out: one more changes nothing. *)
Lemma gc_scan_turns fuel i (s : State MS) :
  (length (_threads s) - i <= fuel)%nat ->
  gc_scan (S fuel) i s = gc_scan fuel i s.
Proof.
  revert i s. induction fuel as [| fuel IH]; intros i s Hlen.
  - simpl. rewrite (lookup_ge_None_2 (_threads s) i) by lia. reflexivity.
  - change (gc_scan (S (S fuel)) i s) with
      (match _threads s !! i with
       | None => s
       | Some thread =>
           if negb (is_alive s thread) then
             gc_scan (S fuel) (S i)
               (after (logS DEBUG ("pruning thread " +:+ quoted "%s")
                             [Z.of_nat thread] ;;;
                       modify (set_threads (remove_first thread)))%py s)
           else gc_scan (S fuel) (S i) s
       end).
    change (gc_scan (S fuel) i s) with
      (match _threads s !! i with
       | None => s
       | Some thread =>
           if negb (is_alive s thread) then
             gc_scan fuel (S i)
               (after (logS DEBUG ("pruning thread " +:+ quoted "%s")
                             [Z.of_nat thread] ;;;
                       modify (set_threads (remove_first thread)))%py s)
           else gc_scan fuel (S i) s
       end).
    destruct (_threads s !! i) as [thread |]; [| reflexivity].
    destruct (negb (is_alive s thread)); apply IH; [| lia].
    unfold after, bind, logS, modify. simpl.
    pose proof (remove_first_length thread (_threads s)). lia.
Qed.

Lemma gc_scan_frame fuel i (s : State MS) :
  _petitions (gc_scan fuel i s) = _petitions s
  /\ pool (gc_scan fuel i s) = pool s.
Proof.
  revert i s. induction fuel as [| fuel IH]; intros i s; simpl; [auto |].
  destruct (_threads s !! i) as [thread |]; [| auto].
  destruct (negb (is_alive s thread)); [| apply IH].
  destruct (IH (S i) (after (logS DEBUG ("pruning thread " +:+ quoted "%s")
                                  [Z.of_nat thread] ;;;
                            modify (set_threads (remove_first thread)))%py s))
    as [-> ->].
  auto.
Qed.

Lemma gc_iter_frame (s : State MS) r s' :
  _gc_iter s = Some (r, s') ->
  _petitions s' = _petitions s /\ pool s' = pool s.
Proof.
  unfold _gc_iter. destruct (_gc_event s); [| discriminate].
  intros [= <- <-].
  destruct (gc_scan_frame (length (_threads s)) 0
              (set_gc_event (fun _ => false) s)) as [Hreg Hpool].
  simpl in *. now rewrite Hreg, Hpool.
Qed.

Lemma remove_first_lookup_before x l j t :
  l !! j = Some t ->
  (forall k, (k <= j)%nat -> l !! k <> Some x) ->
  remove_first x l !! j = Some t.
Proof.
  revert j. induction l as [| y l IH]; intros j Hj Hfree; [discriminate |].
  simpl. destruct (Nat.eqb_spec y x) as [-> | Hne].
  - exfalso. apply (Hfree 0%nat); [lia | reflexivity].
  - destruct j as [| j]; [exact Hj |]. simpl in *.
    apply IH; [assumption |].
    intros k Hk. apply (Hfree (S k)). lia.
Qed.

Lemma remove_first_sublist x l : remove_first x l `sublist_of` l.
Proof.
  induction l as [| y l IH]; simpl; [constructor |].
  destruct (Nat.eqb y x); [now constructor | now constructor].
Qed.

Lemma gc_scan_unfold fuel i (s : State MS) :
  gc_scan (S fuel) i s =
    match _threads s !! i with
    | None => s
    | Some thread =>
        if negb (is_alive s thread) then
          gc_scan fuel (S i)
            (after (logS DEBUG ("pruning thread " +:+ quoted "%s")
                          [Z.of_nat thread] ;;;
                    modify (set_threads (remove_first thread)))%py s)
        else gc_scan fuel (S i) s
    end.
Proof. reflexivity. Qed.

(** With no thread twice in the ledger, the walk never touches an entry
    that its iterator has already passed. *)
Lemma gc_scan_keeps_passed fuel i (s : State MS) j t :
  NoDup (_threads s) -> (j < i)%nat ->
  _threads s !! j = Some t ->
  _threads (gc_scan fuel i s) !! j = Some t.
Proof.
  revert i s. induction fuel as [| fuel IH]; intros i s Hnodup Hji Hj;
    [exact Hj |].
  simpl. destruct (_threads s !! i) as [thread |] eqn:Hi; [| exact Hj].
  destruct (negb (is_alive s thread)); [| apply IH; auto with lia].
  apply IH; [| lia |]; unfold after, bind, logS, modify; simpl.
  - eapply sublist_NoDup; [exact Hnodup | apply remove_first_sublist].
  - apply remove_first_lookup_before; [exact Hj |].
    intros k Hk Hkx.
    assert (k = i) by (eapply NoDup_lookup; eauto). lia.
Qed.

(** C4, in general.  The ledger starts with [t1] and [t2], holds no thread
    twice, and both have finished before the collector wakes.  The walk
    removes [t1] under its own iterator, which thereby steps over [t2]: when
    the wake-up is over the finished [t2] is still in the ledger. *)
Theorem gc_scan_skips_the_entry_after_a_removed_one (s : State MS) t1 t2 rest :
  _gc_event s = true ->
  _threads s = t1 :: t2 :: rest ->
  NoDup (_threads s) ->
  is_alive s t1 = false ->
  is_alive s t2 = false ->
  exists s',
    _gc_iter s = Some (Ok tt, s')
    /\ In t2 (_threads s')
    /\ is_alive s' t2 = false.
Proof.
  intros Hevent Hledger Hnodup Hdead1 Hdead2.
  unfold _gc_iter. rewrite Hevent. eexists. split; [reflexivity |].
  set (s0 := set_gc_event (fun _ => false) s).
  assert (Hledger0 : _threads s0 = t1 :: t2 :: rest) by exact Hledger.
  rewrite Hledger0. change (length (t1 :: t2 :: rest)) with (S (S (length rest))).
  rewrite gc_scan_unfold, Hledger0. cbn [lookup list_lookup].
  replace (is_alive s0 t1) with false by (symmetry; exact Hdead1).
  cbn [negb].
  set (s1 := after _ s0).
  assert (Hledger1 : _threads s1 = t2 :: rest).
  { unfold s1, after, bind, logS, modify. simpl. rewrite Hledger.
    simpl. now rewrite Nat.eqb_refl. }
  assert (Hnodup1 : NoDup (_threads s1)).
  { rewrite Hledger1. rewrite Hledger in Hnodup.
    now apply NoDup_cons in Hnodup as [_ Hnodup]. }
  pose proof (gc_scan_keeps_passed (S (length rest)) 1 s1 0 t2 Hnodup1) as Hkept.
  rewrite Hledger1 in Hkept. specialize (Hkept ltac:(lia) eq_refl).
  destruct (gc_scan_frame (S (length rest)) 1 s1) as [_ Hpool].
  split.
  - apply list_elem_of_In. eapply list_elem_of_lookup_2. exact Hkept.
  - unfold is_alive in *. now rewrite Hpool.
Qed.

(** ** The registry, across every interleaving *)

Lemma registry_inv_frame (s s' : State MS) :
  _petitions s' = _petitions s ->
  pool s `prefix_of` pool s' ->
  registry_inv s -> registry_inv s'.
Proof.
  intros Hreg Hpool Hinv i pid Hi. rewrite Hreg in Hi.
  destruct (Hinv i pid Hi) as (tid & w & Hw & Hid & Hholds).
  exists tid, w. split; [| auto].
  eapply prefix_lookup_Some; eauto.
Qed.

Lemma process_iter_frame (s : State MS) r s' :
  _process_iter s = Some (r, s') ->
  _petitions s' = _petitions s /\ pool s' = pool s.
Proof.
  unfold _process_iter. destruct (queue s) as [| [m |] rest]; [discriminate | |].
  - unfold bind, logS, modify, _process_body, bind, call_convert_to_petition.
    simpl. destruct (convert_to_petition m (manager s)) as [[p |] ms]; simpl.
    + unfold exists_. simpl.
      destruct (is_running (inr (id p)) ms) as [[] ms']; simpl;
        intros [= <- <-]; auto.
    + intros [= <- <-]; auto.
  - intros [= <- <-]; auto.
Qed.

Lemma internal_process_frame (s : State MS) p q' :
  _petitions (after (_internal_process_iter p q') s) = _petitions s
  /\ pool s `prefix_of` pool (after (_internal_process_iter p q') s).
Proof.
  destruct p as [| u]; simpl; split; auto.
  now exists [mk_worker u AtCondition false].
Qed.

Lemma signal_handler_frame (s : State MS) r s' :
  _signal_handler_iter s = Some (r, s') ->
  _petitions s' = _petitions s /\ pool s' = pool s.
Proof.
  unfold _signal_handler_iter. destruct (finishq s); [discriminate |].
  intros [= <- <-]; auto.
Qed.

Lemma internal_signal_handler_frame (s : State MS) r s' :
  _internal_signal_handler_iter s = Some (r, s') ->
  _petitions s' = _petitions s /\ pool s' = pool s.
Proof.
  unfold _internal_signal_handler_iter.
  destruct (_signals s) as [| m rest]; [discriminate |].
  unfold bind, logS, modify, _internal_signal_handler_body.
  destruct (target_id m) as [n |]; [| intros [= <- <-]; auto].
  unfold bind, logS, modify, gets. cbn [_petitions set_world set_signals].
  destruct (_petitions s !! n) as [pid |]; [| intros [= <- <-]; auto].
  unfold record, in_os, modify. cbn [world set_world set_signals set_calls].
  destruct (Cmd.kill_proc_tree _ _ _ _) as [[[] | e] w'];
    intros [= <- <-]; auto.
Qed.

(** A step of worker [tid] keeps the invariant as soon as every entry left
    in the registry is the worker's own fresh one, another id's old one, or
    an old one that the worker, if it accounted for it, still accounts for. *)
Lemma registry_inv_worker (s s' : State MS) tid w0 w0' :
  registry_inv s ->
  pool s !! tid = Some w0 ->
  pool s' = <[tid := w0']> (pool s) ->
  w_unit w0' = w_unit w0 ->
  (forall i pid, _petitions s' !! i = Some pid ->
     (i = id (w_unit w0) /\ holds_entry w0' = true)
     \/ (i <> id (w_unit w0) /\ is_Some (_petitions s !! i))
     \/ (is_Some (_petitions s !! i)
         /\ (holds_entry w0 = true -> holds_entry w0' = true))) ->
  registry_inv s'.
Proof.
  intros Hinv Hw0 Hpool Hunit Hentries i pid Hi.
  assert (Htid : (tid < length (pool s))%nat) by (eapply lookup_lt_Some; eauto).
  assert (Hown : pool s' !! tid = Some w0').
  { rewrite Hpool. now apply list_lookup_insert_eq. }
  assert (Hother : forall t w, t <> tid -> pool s !! t = Some w ->
            pool s' !! t = Some w).
  { intros t w Hne Hw. rewrite Hpool. now rewrite list_lookup_insert_ne. }
  destruct (Hentries i pid Hi) as [[-> Hholds] | [[Hne [pid' Hold]] | [[pid' Hold] Hkeep]]].
  - exists tid, w0'. rewrite Hunit. auto.
  - destruct (Hinv i pid' Hold) as (t & w & Hw & Hid & Hholds).
    exists t, w. repeat split; auto. apply Hother; [| assumption].
    intros ->. rewrite Hw0 in Hw. congruence.
  - destruct (Hinv i pid' Hold) as (t & w & Hw & Hid & Hholds).
    destruct (Nat.eq_dec t tid) as [-> | Hne].
    + rewrite Hw0 in Hw. injection Hw as <-.
      exists tid, w0'. rewrite Hunit. auto.
    + exists t, w. auto.
Qed.

Lemma worker_step_at_preserves (s s' : State MS) tid :
  worker_step_at tid s = Some s' -> registry_inv s -> registry_inv s'.
Proof.
  unfold worker_step_at.
  destruct (pool s !! tid) as [[p ph assigned] |] eqn:Hw0; [| discriminate].
  cbn [w_unit w_phase w_assigned].
  destruct (worker_step p ph s) as [ph' s1] eqn:Hstep.
  intros [= <-] Hinv.
  assert (Hframe : forall i pid, _petitions s1 !! i = Some pid ->
            _petitions s1 = _petitions s ->
            (before_pop ph = true -> before_pop ph' = true) ->
            (i = id p /\ holds_entry
                           (mk_worker p ph' (assigned || calls_assign_pid ph))
                         = true)
            \/ (i <> id p /\ is_Some (_petitions s !! i))
            \/ (is_Some (_petitions s !! i)
                /\ (holds_entry (mk_worker p ph assigned) = true ->
                    holds_entry
                      (mk_worker p ph' (assigned || calls_assign_pid ph))
                    = true))).
  { intros i pid Hi Hreg Hbp. right. right. rewrite <- Hreg. split; [eauto |].
    unfold holds_entry. cbn [w_assigned w_phase].
    rewrite !andb_true_iff. intros [-> Hb]. auto. }
  destruct ph as [| | | [| e | proc rest] | rest | e | pending | pending
                  | pending | r]; simpl in Hstep.
  all: try (destruct (negb (condition p (manager _))));
       try (destruct (isinstance e Exception));
       injection Hstep as <- <-;
       (eapply registry_inv_worker;
        [exact Hinv | exact Hw0 | reflexivity | reflexivity |]);
       cbn [w_unit]; intros i pid Hi.
  all: try (apply (Hframe i pid Hi); [reflexivity | cbn; auto; discriminate]).
  - (* the registry write of [assign_pid] *)
    cbn in Hi. destruct (decide (i = id p)) as [-> | Hne].
    + left. split; [reflexivity |]. unfold holds_entry. cbn.
      now rewrite orb_true_r.
    + right. left. split; [assumption |].
      rewrite lookup_insert_ne in Hi by congruence. eauto.
  - (* the [pop] of the cleanup *)
    cbn in Hi. right. left.
    destruct (decide (i = id p)) as [-> | Hne].
    + rewrite lookup_delete_eq in Hi. discriminate.
    + rewrite lookup_delete_ne in Hi by congruence. eauto.
Qed.

Lemma leave_frame d r (s : State MS) :
  _petitions (leave d r s) = _petitions s /\ pool (leave d r s) = pool s.
Proof. unfold leave. now destruct (is_ok r). Qed.

Lemma registry_inv_leave d r (s0 s : State MS) :
  _petitions s = _petitions s0 -> pool s0 `prefix_of` pool s ->
  registry_inv s0 -> registry_inv (leave d r s).
Proof.
  intros Hreg Hpool. destruct (leave_frame d r s) as [Hreg' Hpool'].
  apply registry_inv_frame; [congruence | now rewrite Hpool'].
Qed.

Lemma step_preserves (s s' : State MS) :
  step s s' -> registry_inv s -> registry_inv s'.
Proof.
  intros Hstep.
  destruct Hstep as [s m | s m | s | s d Hrun Hstarted Hout
                     | s r s' Hin Hiter | s p q' Hin Hget
                     | s r s' Hin Hiter | s r s' Hin Hiter
                     | s r s' Hin Hiter | s tid s' Hworker | s q fq ms ch w].
  - now apply registry_inv_frame.
  - now apply registry_inv_frame.
  - now apply registry_inv_frame.
  - now apply registry_inv_frame.
  - apply process_iter_frame in Hiter as [Hreg Hpool].
    apply registry_inv_leave; [assumption | now rewrite Hpool].
  - destruct (internal_process_frame s p q') as [Hreg Hpool].
    now apply registry_inv_leave.
  - apply signal_handler_frame in Hiter as [Hreg Hpool].
    apply registry_inv_leave; [assumption | now rewrite Hpool].
  - apply internal_signal_handler_frame in Hiter as [Hreg Hpool].
    apply registry_inv_leave; [assumption | now rewrite Hpool].
  - apply gc_iter_frame in Hiter as [Hreg Hpool].
    apply registry_inv_leave; [assumption | now rewrite Hpool].
  - now apply worker_step_at_preserves with (tid := tid).
  - now apply registry_inv_frame.
Qed.

Lemma constructed_registry_empty (s : State MS) :
  constructed s -> _petitions s = ∅.
Proof.
  intros (q & fq & m & env & c & Hc & Hs).
  unfold Processor, __new__, __init__ in Hc. simpl in Hc.
  injection Hc as <-. simpl in Hs. now injection Hs as <-.
Qed.

Lemma rtc_step_registry_inv (s0 s : State MS) :
  rtc step s0 s -> registry_inv s0 -> registry_inv s.
Proof. induction 1; eauto using step_preserves. Qed.

Lemma reachable_registry_inv (s : State MS) : reachable s -> registry_inv s.
Proof.
  intros (s0 & Hinit & Hsteps).
  apply (rtc_step_registry_inv s0 s Hsteps).
  intros i pid Hi. rewrite (constructed_registry_empty _ Hinit) in Hi.
  now rewrite lookup_empty in Hi.
Qed.

Lemma holds_entry_in_window (w : worker MS) :
  holds_entry w = true -> in_window w = true.
Proof.
  unfold holds_entry, in_window. rewrite !andb_true_iff.
  intros [-> Hbefore]. split; [reflexivity |].
  now destruct (w_phase w).
Qed.

(** C7, as amended: the invariant holds per id.  In every state the
    threads can reach from a constructed processor, by any interleaving of
    their steps: an entry of the registry for an id implies a launch worker
    for a unit with that id whose action has called [assign_pid] and whose
    cleanup has not ended; hence an id none of whose workers has called
    [assign_pid] (in particular the id of a unit never launched) has no
    entry; a further step leads to a state of which all this holds again.
    For a single unit it says what the registry says of its id: only where
    no other unit launched shares the id of a unit is an entry under that id
    the unit's own, with a worker of that very unit in the interval.  The
    code does not see to that: the relay turns away an id only when the
    manager reports it running. *)
Theorem registry_entries_within_window (s : State MS) :
  reachable s ->
  (forall i pid, _petitions s !! i = Some pid ->
     exists tid w,
       pool s !! tid = Some w /\ id (w_unit w) = i /\ in_window w = true)
  /\ (forall i,
        (forall tid w, pool s !! tid = Some w -> id (w_unit w) = i ->
                       w_assigned w = false) ->
        _petitions s !! i = None)
  /\ (forall tid w, pool s !! tid = Some w ->
        (forall tid' w', pool s !! tid' = Some w' ->
                         id (w_unit w') = id (w_unit w) ->
                         w_unit w' = w_unit w) ->
        is_Some (_petitions s !! id (w_unit w)) ->
        exists tid' w',
          pool s !! tid' = Some w' /\ w_unit w' = w_unit w
          /\ in_window w' = true)
  /\ (forall s', step s s' -> reachable s').
Proof.
  intros Hreach. pose proof (reachable_registry_inv s Hreach) as Hinv.
  split; [| split; [| split]].
  - intros i pid Hi. destruct (Hinv i pid Hi) as (tid & w & Hw & Hid & Hholds).
    exists tid, w. auto using holds_entry_in_window.
  - intros i Hnone. destruct (_petitions s !! i) as [pid |] eqn:Hi; [| reflexivity].
    destruct (Hinv i pid Hi) as (tid & w & Hw & Hid & Hholds).
    unfold holds_entry in Hholds. apply andb_true_iff in Hholds as [Hassigned _].
    rewrite (Hnone tid w Hw Hid) in Hassigned. discriminate.
  - intros tid w Hw Hunique [pid Hi].
    destruct (Hinv _ pid Hi) as (tid' & w' & Hw' & Hid & Hholds).
    exists tid', w'. eauto using holds_entry_in_window.
  - intros s' Hstep. destruct Hreach as (s0 & Hinit & Hsteps).
    exists s0. split; [assumption |]. eapply rtc_r; eauto.
Qed.

End ProcessorFacts.

(* ===================================================================== *)
(** * The facts at work on the small installation *)
(* ===================================================================== *)

Import Petition Proc Demo.

Lemma kill_proc_tree_no_such_process_witness :
  0 <= 999
  /\ Cmd.is_live 999 Demo.machine = false
  /\ Cmd.kill_proc_tree 999 true Cmd.SIGTERM Demo.machine =
       (Ok tt,
        Cmd.add_log
          (mk_log WARNING "error while trying to kill proccess with id %s" [999])
          (Cmd.tick Demo.machine)).
Proof.
  split; [lia |]. split; [reflexivity |].
  apply (kill_proc_tree_no_such_process 999 true Cmd.SIGTERM Demo.machine);
    [lia | reflexivity].
Defined.

Lemma kill_proc_tree_child_gone_witness :
  exists w',
    Cmd.kill_proc_tree 300 true Cmd.SIGTERM Demo.racing = (Ok tt, w')
    /\ Cmd.delivered w' = [(301, Cmd.SIGTERM)]
    /\ warnings (Cmd.log w') =
         [mk_log WARNING "error while trying to kill proccess with id %s" [300]].
Proof.
  exact (kill_proc_tree_child_gone 300 true Cmd.SIGTERM Demo.racing
           (Cmd.mk_process 300) (Cmd.tick Demo.racing)
           [Cmd.mk_process 301] (Cmd.mk_process 302) [Cmd.mk_process 303]
           (Cmd.tick (Cmd.tick Demo.racing))
           (Cmd.add_delivered 301 Cmd.SIGTERM
              (Cmd.tick (Cmd.tick (Cmd.tick Demo.racing))))
           eq_refl eq_refl eq_refl eq_refl).
Defined.

(** The callbacks write down what they find: the child, started in the
    directory asked for, is in the process table when [on_start] and
    [on_output] run, and gone when [on_finish] runs. *)
Lemma run_command_round_trip_witness :
  exists w',
    Cmd.run_command Demo.split_words (inr ["sh"; "-c"; "ls; false"])
      (Some Demo.see_start) (Some Demo.see_output) (Some Demo.see_finish)
      (Some "/srv") (Demo.machine, [])
    = (Ok 1, (w', ["start 400 (400 alive)"; "line a (400 alive)";
                   "line b (400 alive)"; "exit 1 (400 gone)"]))
    /\ Cmd.is_live 400 w' = false.
Proof.
  destruct (run_command_round_trip Demo.split_words
              (inr ["sh"; "-c"; "ls; false"])
              (Some Demo.see_start) (Some Demo.see_output)
              (Some Demo.see_finish) (Some "/srv")
              ["sh"; "-c"; "ls; false"] ["a"; "b"] 1
              Demo.machine [] ["start 400 (400 alive)"]
              ["start 400 (400 alive)"; "line a (400 alive)";
               "line b (400 alive)"]
              ["start 400 (400 alive)"; "line a (400 alive)";
               "line b (400 alive)"; "exit 1 (400 gone)"]
              eq_refl eq_refl eq_refl eq_refl eq_refl)
    as (_ & _ & Hgone & Hrun).
  eexists. split; [exact Hrun | exact Hgone].
Defined.

Lemma duplicate_running_rejected_witness :
  exists s',
    _process_iter Demo.busy = Some (Ok tt, s')
    /\ channels s' !! 7 =
         Some [Line (already_exists 7); Status 1]
    /\ _internalq s' = [].
Proof.
  destruct (duplicate_running_rejected Demo.busy Demo.build []
              (Demo.petition_of Demo.build) [7] [7])
    as (s' & Hiter & Hchan & Hq & _); [reflexivity | reflexivity | reflexivity |].
  exists s'. split; [exact Hiter |]. split; [| exact Hq].
  rewrite Hchan. reflexivity.
Defined.

Lemma not_ready_requeued_witness :
  exists s',
    _start (Demo.waiting 9) Demo.fresh = (Ok tt, s')
    /\ _internalq s' = [Unit (Demo.waiting 9)]
    /\ _gc_event s' = true
    /\ calls s' = [Call_condition 9].
Proof.
  destruct (not_ready_requeued Demo.fresh (Demo.waiting 9) eq_refl)
    as (s' & Hstart & Hq & _ & Hgc & Hcalls & _).
  exists s'. auto.
Defined.

Lemma ready_runs_and_cleans_up_witness :
  exists s',
    _start (Demo.ready 9 (AssignPid (Pid 300)
                            (Raise (mk_exn RuntimeError "boom"))))
           Demo.fresh = (Ok tt, s')
    /\ _petitions s' !! 9 = None
    /\ _gc_event s' = true
    /\ calls s' = [Call_condition 9; Call_action 9; Call_on_start 9;
                   Call_on_finish 9]
    /\ warnings (Cmd.log (world s')) = [mk_log WARNING unhandled [9]].
Proof.
  destruct (ready_runs_and_cleans_up Demo.fresh
              (Demo.ready 9 (AssignPid (Pid 300)
                               (Raise (mk_exn RuntimeError "boom"))))
              eq_refl)
    as (s' & Hstart & Hreg & Hgc & Hcalls & _ & Hwarn & _).
  exists s'. split; [exact Hstart |]. split; [| auto].
  rewrite Hreg. reflexivity.
Defined.

(** An action that ends in [SystemExit] (it called [sys.exit]) is not in
    the reach of [except Exception]: the exception leaves [_start]. *)
Lemma system_exit_leaves_the_worker :
  condition (Demo.ready 9 (Raise (mk_exn SystemExit "1")))
            (manager Demo.fresh) = true
  /\ fst (_start (Demo.ready 9 (Raise (mk_exn SystemExit "1"))) Demo.fresh)
     = Raised (mk_exn SystemExit "1")
  /\ warnings (Cmd.log (world
       (snd (_start (Demo.ready 9 (Raise (mk_exn SystemExit "1")))
                    Demo.fresh)))) = [].
Proof. repeat split. Qed.

Lemma signal_consumer_interrupts_children_witness :
  exists s',
    _internal_signal_handler_iter Demo.signalled = Some (Ok tt, s')
    /\ calls s' = [Call_kill_proc_tree 300 false Cmd.SIGINT]
    /\ Cmd.delivered (world s') =
         [(301, Cmd.SIGINT); (302, Cmd.SIGINT); (303, Cmd.SIGINT)].
Proof.
  destruct (signal_consumer_interrupts_children Demo.signalled (SigId 9) [] 9
              eq_refl eq_refl)
    as (r & s' & sent & Hiter & Hcalls & Hd & _ & _ & Hquiet & _).
  destruct Hquiet as [-> ->]; [reflexivity | reflexivity | lia | reflexivity |].
  exists s'. auto.
Defined.

Lemma failed_first_construction_witness :
  exists c,
    Processor None (Some []) (Some []) Demo.surroundings (mk_class None) =
      (Raised (mk_exn ValueError
                 "queue & manager objects cannot be empty during init"), c)
    /\ __instance__ c = Some (mk_instance true None)
    /\ Processor (Some []) (Some []) (Some []) Demo.surroundings c =
         (Ok tt, mk_class (Some (mk_instance false (Some Demo.fresh)))).
Proof.
  destruct (failed_first_construction (MS := list Z)
              None (Some []) (Some []) Demo.surroundings)
    as (c & Hraise & Hkept & Hlater & _); [now left |].
  exists c. split; [exact Hraise |]. split; [exact Hkept |].
  rewrite Hlater. reflexivity.
Defined.

(** After the failed attempt the class attribute is no longer [None]. *)
Lemma failed_construction_keeps_instance :
  fst (Processor (MS := list Z) None None None Demo.surroundings (mk_class None))
    = Raised (mk_exn ValueError
                "queue & manager objects cannot be empty during init")
  /\ __instance__
       (snd (Processor (MS := list Z) None None None Demo.surroundings
               (mk_class None)))
     <> None.
Proof. split; [reflexivity | discriminate]. Qed.

(** On the ledger [[0; 1]] with both threads finished, the wake-up leaves
    [[1]]: after the removal of thread 0 the iterator stands at index 1,
    past the end of the one-entry list. *)
Lemma gc_scan_skips_the_entry_after_a_removed_one_witness :
  is_alive Demo.two_finished 1 = false
  /\ (_threads ∘ snd) <$> _gc_iter Demo.two_finished = Some [1%nat]
  /\ exists s',
       _gc_iter Demo.two_finished = Some (Ok tt, s')
       /\ In 1%nat (_threads s') /\ is_alive s' 1 = false.
Proof.
  split; [reflexivity |]. split; [reflexivity |].
  apply (gc_scan_skips_the_entry_after_a_removed_one Demo.two_finished
           0%nat 1%nat []); try reflexivity.
  apply NoDup_cons. split; [| apply NoDup_singleton].
  intros Hin. apply list_elem_of_singleton in Hin. discriminate.
Defined.

Lemma registry_entries_within_window_witness :
  reachable Demo.launched
  /\ _petitions Demo.launched !! 7 = Some 300
  /\ exists tid w,
       pool Demo.launched !! tid = Some w
       /\ id (w_unit w) = 7 /\ in_window w = true.
Proof.
  assert (Hreach : reachable Demo.launched).
  { exists Demo.fresh. split.
    - exists [], [], [], Demo.surroundings,
        (mk_class (Some (mk_instance false (Some Demo.fresh)))).
      split; reflexivity.
    - apply (rtc_l _ _ Demo.enqueued); [apply step_enqueue |].
      apply (rtc_l _ _ Demo.relaying);
        [apply (step_loop_head _ ProcessT); reflexivity |].
      apply (rtc_l _ _ Demo.relayed).
      { apply (step_process Demo.relaying (Ok tt)); [reflexivity |].
        vm_compute. reflexivity. }
      apply (rtc_l _ _ Demo.dispatching);
        [apply (step_loop_head _ InternalT); reflexivity |].
      apply (rtc_l _ _ Demo.dispatched).
      { apply (step_internal_process Demo.dispatching
                 (Unit (Demo.petition_of Demo.build)) []);
          [reflexivity |].
        replace (_internalq Demo.dispatching)
          with ([] ++ Unit (Demo.petition_of Demo.build) :: [])
          by (vm_compute; reflexivity).
        apply pq_get_least. intros y []. }
      apply (rtc_l _ _ Demo.checked).
      { apply (step_worker _ 0%nat). vm_compute. reflexivity. }
      apply (rtc_l _ _ Demo.launched).
      { apply (step_worker _ 0%nat). vm_compute. reflexivity. }
      apply rtc_refl. }
  split; [exact Hreach |]. split; [reflexivity |].
  destruct (registry_entries_within_window Demo.launched Hreach)
    as (Hwindow & _).
  exact (Hwindow 7 300 eq_refl).
Defined.

(** Read per unit, the invariant fails: with the manager [Demo.lax], in a
    state the threads reach, the second unit under id 7 has a worker that
    is still at the first line of [_start] and an action that never calls
    [assign_pid], and the registry has an entry under its id, the one of
    the first unit. *)
Lemma second_unit_meets_the_entry_of_the_first :
  reachable (mgr := Demo.lax) Demo.shared
  /\ _petitions Demo.shared !! 7 = Some 300
  /\ exists w,
       pool Demo.shared !! 1%nat = Some w
       /\ id (w_unit w) = 7
       /\ last_pid (action (w_unit w)) = None
       /\ w_phase w = AtCondition
       /\ in_window w = false.
Proof.
  split; [| split; [reflexivity |]].
  - exists Demo.fresh. split.
    + exists [], [], [], Demo.surroundings,
        (mk_class (Some (mk_instance false (Some Demo.fresh)))).
      split; reflexivity.
    + apply (rtc_l _ _ Demo.enqueued); [apply step_enqueue |].
      apply (rtc_l _ _ Demo.relaying);
        [apply (step_loop_head (mgr := Demo.lax) _ ProcessT); reflexivity |].
      apply (rtc_l _ _ Demo.relayed).
      { apply (step_process (mgr := Demo.lax) Demo.relaying (Ok tt));
          [reflexivity |].
        vm_compute. reflexivity. }
      apply (rtc_l _ _ Demo.dispatching);
        [apply (step_loop_head (mgr := Demo.lax) _ InternalT); reflexivity |].
      apply (rtc_l _ _ Demo.dispatched).
      { apply (step_internal_process (mgr := Demo.lax) Demo.dispatching
                 (Unit (Demo.petition_of Demo.build)) []);
          [reflexivity |].
        replace (_internalq Demo.dispatching)
          with ([] ++ Unit (Demo.petition_of Demo.build) :: [])
          by (vm_compute; reflexivity).
        apply pq_get_least. intros y []. }
      apply (rtc_l _ _ Demo.checked).
      { apply (step_worker (mgr := Demo.lax) _ 0%nat). vm_compute.
        reflexivity. }
      apply (rtc_l _ _ Demo.launched).
      { apply (step_worker (mgr := Demo.lax) _ 0%nat). vm_compute.
        reflexivity. }
      apply (rtc_l _ _ Demo.again);
        [apply (step_enqueue (mgr := Demo.lax)) |].
      apply (rtc_l _ _ Demo.again_relaying);
        [apply (step_loop_head (mgr := Demo.lax) _ ProcessT); reflexivity |].
      apply (rtc_l _ _ Demo.again_relayed).
      { apply (step_process (mgr := Demo.lax) Demo.again_relaying (Ok tt));
          [reflexivity |].
        vm_compute. reflexivity. }
      apply (rtc_l _ _ Demo.again_dispatching);
        [apply (step_loop_head (mgr := Demo.lax) _ InternalT); reflexivity |].
      apply (rtc_l _ _ Demo.shared).
      { apply (step_internal_process (mgr := Demo.lax) Demo.again_dispatching
                 (Unit (Demo.ready 7 Return)) []);
          [reflexivity |].
        replace (_internalq Demo.again_dispatching)
          with ([] ++ Unit (Demo.ready 7 Return) :: [])
          by (vm_compute; reflexivity).
        apply pq_get_least. intros y []. }
      apply rtc_refl.
  - exists (mk_worker (Demo.ready 7 Return) AtCondition false).
    repeat split.
Qed.

(* ===================================================================== *)
(** * More about the command utilities *)
(* ===================================================================== *)

Lemma psutil_Process_world pid w r w1 :
  psutil_Process pid w = (r, w1) -> w1 = tick w.
Proof.
  unfold psutil_Process. destruct (pid <? 0); [now intros [= _ <-] |].
  destruct (is_live pid (tick w)); now intros [= _ <-].
Qed.

Lemma children_recursive_world parent w r w1 :
  children_recursive parent w = (r, w1) -> w1 = tick w.
Proof.
  unfold children_recursive.
  destruct (is_live (process_pid parent) (tick w)); now intros [= _ <-].
Qed.

Lemma send_signal_outcome proc sig w r w' :
  send_signal proc sig w = (r, w') ->
  (r = Ok tt /\ delivered w' = delivered w ++ [(process_pid proc, sig)]
   /\ log w' = log w)
  \/ ((exists e, r = Raised e) /\ delivered w' = delivered w /\ log w' = log w).
Proof.
  intros H.
  destruct (send_signal_cases proc sig w) as [[Hok _] | [e Hraise]];
    rewrite H in *.
  - injection Hok as -> ->. left. simpl.
    now rewrite tick_delivered, tick_log.
  - injection Hraise as -> ->. right.
    rewrite tick_delivered, tick_log. eauto.
Qed.

(** X1.  Whatever [kill_proc_tree] is called with and however it ends, the
    signals it delivers carry the given signal number and go to [pid] or
    to processes that descend from [pid], to nothing else on the machine;
    and all it may log is the one warning of its handler, after which it
    has returned normally. *)
Theorem kill_proc_tree_stays_in_tree pid including_parent sig w r w' :
  kill_proc_tree pid including_parent sig w = (r, w') ->
  (exists sent,
     delivered w' = delivered w ++ map (fun c => (c, sig)) sent
     /\ forall c, In c sent -> c = pid \/ is_descendant w c pid = true)
  /\ (log w' = log w
      \/ (r = Ok tt
          /\ log w' = log w ++
               [mk_log WARNING
                  "error while trying to kill proccess with id %s" [pid]])).
Proof.
  unfold kill_proc_tree, try_except, bind.
  destruct (psutil_Process pid w) as [[parent | e] w1] eqn:E1.
  - apply psutil_Process_ok in E1 as (-> & -> & Hlive).
    destruct (children_recursive _ _) as [[cs | e] w2] eqn:E2.
    + apply children_recursive_ok in E2 as (-> & ->).
      destruct (for_each _ _ _) as [r3 w3] eqn:E3.
      apply for_each_send_signal in E3
        as (sent & rest & Hsplit & Hd & Hl & _).
      assert (Hdesc : forall c, In c (map process_pid sent) ->
                c = pid \/ is_descendant w c pid = true).
      { intros c Hc. right. apply in_map_iff in Hc as (pc & <- & Hin).
        assert (Hin' : In pc (sent ++ rest)) by (apply in_or_app; now left).
        rewrite <- Hsplit in Hin'.
        apply in_map_iff in Hin' as (c & <- & Hc). simpl.
        apply descendants_spec in Hc as [_ Hc].
        now apply is_descendant_tick, is_descendant_tick. }
      assert (Hd' : delivered w3 =
                delivered w ++ map (fun c => (c, sig)) (map process_pid sent)).
      { rewrite Hd, !tick_delivered, map_map. reflexivity. }
      rewrite !tick_log in Hl.
      destruct r3 as [[] | e].
      * destruct including_parent.
        -- destruct (send_signal _ _ _) as [r4 w4] eqn:E4.
           apply send_signal_outcome in E4
             as [(-> & Hd4 & Hl4) | ([e ->] & Hd4 & Hl4)].
           ++ intros [= <- <-]. split; [| left; congruence].
              exists (map process_pid sent ++ [pid]). split.
              ** rewrite Hd4, Hd', map_app, app_assoc. reflexivity.
              ** intros c Hc. apply in_app_or in Hc as [Hc | [<- | []]];
                   auto.
           ++ destruct (isinstance e NoSuchProcess); intros [= <- <-];
                (split; [exists (map process_pid sent); split;
                           [simpl; congruence | assumption] |]).
              ** right. simpl. split; [reflexivity | congruence].
              ** left. congruence.
        -- unfold ret. intros [= <- <-]. split; [eauto | left; congruence].
      * destruct (isinstance e NoSuchProcess); intros [= <- <-];
          (split; [exists (map process_pid sent); split;
                     [simpl; congruence | assumption] |]).
        -- right. simpl. split; [reflexivity | congruence].
        -- left. congruence.
    + apply children_recursive_world in E2 as ->.
      destruct (isinstance e NoSuchProcess); intros [= <- <-];
        (split; [exists []; simpl; rewrite !tick_delivered, app_nil_r;
                 split; [reflexivity | contradiction] |]).
      * right. simpl. now rewrite !tick_log.
      * left. now rewrite !tick_log.
  - apply psutil_Process_world in E1 as ->.
    destruct (isinstance e NoSuchProcess); intros [= <- <-];
      (split; [exists []; simpl; rewrite !tick_delivered, app_nil_r;
               split; [reflexivity | contradiction] |]).
    + right. simpl. now rewrite !tick_log.
    + left. now rewrite !tick_log.
Qed.

(** X2.  On a machine where nothing else happens and nothing is protected,
    [kill_proc_tree] with [including_parent] signals every descendant of
    a live [pid], in the order of enumeration, and [pid] itself last; it
    returns normally and logs nothing. *)
Theorem kill_proc_tree_parent_last pid sig w :
  exits w = [] -> protected w = [] -> 0 <= pid -> is_live pid w = true ->
  exists w',
    kill_proc_tree pid true sig w = (Ok tt, w')
    /\ delivered w' =
         delivered w
         ++ map (fun c => (c, sig)) (descendants (procs w) pid ++ [pid])
    /\ log w' = log w
    /\ procs w' = procs w.
Proof.
  intros Hex Hprot Hpid Hlive.
  assert (Hparent : psutil_Process pid w = (Ok (mk_process pid), w)).
  { unfold psutil_Process. rewrite (tick_quiet _ Hex), Hlive.
    destruct (Z.ltb_spec pid 0); [lia | reflexivity]. }
  assert (Hchildren : children_recursive (mk_process pid) w =
            (Ok (map mk_process (descendants (procs w) pid)), w)).
  { unfold children_recursive. simpl. now rewrite (tick_quiet _ Hex), Hlive. }
  assert (Hloop : forall cs w0,
            exits w0 = [] -> protected w0 = [] -> procs w0 = procs w ->
            (forall c, In c cs -> is_live (process_pid c) w = true) ->
            exists w1,
              for_each cs (fun c => send_signal c sig) w0 = (Ok tt, w1)
              /\ delivered w1 =
                   delivered w0 ++ map (fun c => (process_pid c, sig)) cs
              /\ log w1 = log w0 /\ procs w1 = procs w
              /\ exits w1 = [] /\ protected w1 = []).
  { induction cs as [| c cs IH]; intros w0 Hex0 Hprot0 Hprocs Hall; simpl.
    - exists w0. rewrite app_nil_r. repeat split; auto.
    - assert (Hsend : send_signal c sig w0 =
                        (Ok tt, add_delivered (process_pid c) sig w0)).
      { unfold send_signal. rewrite (tick_quiet _ Hex0), Hprot0.
        pose proof (Hall c (or_introl eq_refl)) as Hc.
        unfold is_live, pids in *. rewrite Hprocs. now rewrite Hc. }
      unfold bind. rewrite Hsend.
      destruct (IH (add_delivered (process_pid c) sig w0))
        as (w1 & -> & Hd & Hl & Hp & Hex1 & Hprot1);
        [auto | auto | auto | intros c' Hc'; apply Hall; now right |].
      exists w1. simpl in Hd, Hl. rewrite Hd, Hl, <- app_assoc.
      repeat split; auto. }
  destruct (Hloop (map mk_process (descendants (procs w) pid)) w)
    as (w1 & Hrun & Hd & Hl & Hp & Hex1 & Hprot1); [auto | auto | auto | |].
  { intros c Hc. apply in_map_iff in Hc as (q & <- & Hq). simpl.
    apply descendants_spec in Hq as [Hq _].
    unfold is_live, pids. now apply mem_true_iff. }
  unfold kill_proc_tree, try_except, bind.
  rewrite Hparent, Hchildren, Hrun.
  assert (Hlast : send_signal (mk_process pid) sig w1 =
                    (Ok tt, add_delivered pid sig w1)).
  { unfold send_signal. rewrite (tick_quiet _ Hex1), Hprot1. simpl.
    unfold is_live, pids in *. rewrite Hp. now rewrite Hlive. }
  rewrite Hlast. eexists. split; [reflexivity |]. simpl.
  rewrite Hd, Hl, Hp, map_app, map_map, <- app_assoc. repeat split.
Qed.

(** X3.  Only [NoSuchProcess] is caught.  The children were enumerated as
    [before ++ child :: later], those of [before] took the signal, and
    [child] is alive but may not be signalled by the caller: the
    [AccessDenied] of psutil leaves [kill_proc_tree]; nothing is logged and
    neither [later] nor the parent is signalled. *)
Theorem kill_proc_tree_access_denied
    pid including_parent sig w parent w1 before child later w2 w3 :
  psutil_Process pid w = (Ok parent, w1) ->
  children_recursive parent w1 = (Ok (before ++ child :: later), w2) ->
  for_each before (fun c => send_signal c sig) w2 = (Ok tt, w3) ->
  is_live (process_pid child) (tick w3) = true ->
  mem (process_pid child) (protected w) = true ->
  exists e w',
    kill_proc_tree pid including_parent sig w = (Raised e, w')
    /\ exn_class e = AccessDenied
    /\ delivered w' =
         delivered w ++ map (fun c => (process_pid c, sig)) before
    /\ log w' = log w.
Proof.
  intros Hparent Hchildren Hbefore Hlive Hprot.
  unfold kill_proc_tree, try_except, bind.
  rewrite Hparent, Hchildren, for_each_app, Hbefore. simpl.
  apply for_each_send_signal in Hbefore
    as (sent & rest & Hsplit & Hd & Hl & Hp & _ & Hrest).
  rewrite (Hrest eq_refl), app_nil_r in Hsplit. subst sent.
  apply psutil_Process_ok in Hparent as (_ & -> & _).
  apply children_recursive_ok in Hchildren as (_ & ->).
  rewrite !tick_protected in Hp.
  unfold bind, send_signal. rewrite Hlive, tick_protected, Hp, Hprot. simpl.
  eexists _, _. split; [reflexivity |]. simpl.
  rewrite !tick_delivered, !tick_log, Hd, Hl, !tick_delivered, !tick_log.
  auto.
Qed.

Section RunnerMore.

Variable shlex_split : string -> result (list string).
Context {U : Type}.

(** What [run_command] comes to once the child is spawned, by the outcome
    of the callbacks. *)
Lemma run_command_spawned
    cmd (on_start : option (@callback U Popen))
    (on_output : option (@callback U string))
    (on_finish : option (@callback U Z))
    cwd command out rc w u :
  command_of shlex_split cmd = Ok command ->
  program_of w command cwd = Ok (out, rc) ->
  let proc := mk_popen (next_pid w) out rc in
  let w1 := set_next_pid (next_pid w + 1)
              (set_procs (fun tbl => tbl ++ [(next_pid w, self_pid w)])
                 (add_log (mk_log DEBUG "> %s" [])
                    (add_log (mk_log DEBUG "$ %s" []) w))) in
  let w2 := snd (Popen_exit proc (snd (Popen_wait proc w1))) in
  run_command shlex_split cmd on_start on_output on_finish cwd (w, u) =
    match (or_empty on_start proc w1 ;;;
           for_each out (fun line => or_empty on_output line w1))%py u with
    | (Raised e, u') => (Raised e, (snd (Popen_exit proc w1), u'))
    | (Ok _, u2) =>
        match or_empty on_finish rc w2 u2 with
        | (Ok _, u3) => (Ok rc, (w2, u3))
        | (Raised e, u3) => (Raised e, (w2, u3))
        end
    end.
Proof.
  intros Hcmd Hprog proc w1 w2.
  assert (Hspawn : Popen_spawn command cwd
                     (add_log (mk_log DEBUG "> %s" [])
                        (add_log (mk_log DEBUG "$ %s" []) w)) = (Ok proc, w1)).
  { unfold Popen_spawn.
    change (program_of (add_log _ (add_log _ w)) command cwd)
      with (program_of w command cwd).
    now rewrite Hprog. }
  unfold run_command, with_Popen, bind at 1. rewrite Hcmd.
  unfold bind at 1. unfold in_world at 1, log_debug at 1, modify at 1. simpl.
  unfold bind at 1. unfold in_world at 1, log_debug at 1, modify at 1. simpl.
  unfold bind at 1, bind at 1, in_world at 1. simpl.
  rewrite Hspawn. unfold try_finally, bind at 1. unfold in_user at 1.
  simpl. fold proc. fold w1. unfold bind at 3.
  destruct (or_empty on_start proc w1 u) as [[[] | e] u1]; [| reflexivity].
  unfold bind at 1. rewrite for_each_in_user. simpl.
  destruct (for_each out (fun line => or_empty on_output line w1) u1)
    as [[[] | e] u2]; [| reflexivity].
  simpl. unfold in_world, Popen_exit, Popen_wait, bind, ret, in_user. simpl.
  unfold w2, Popen_exit, Popen_wait, bind, ret. simpl.
  destruct (or_empty on_finish rc _ u2) as [[[] | e] u3]; reflexivity.
Qed.

Lemma reaped_not_live proc w :
  is_live (popen_pid proc) (snd (Popen_exit proc w)) = false.
Proof.
  unfold Popen_exit, Popen_wait, bind, ret, is_live, pids. simpl.
  destruct (mem _ _) eqn:E; [| reflexivity].
  apply mem_true_iff, in_map_iff in E as ([q qq] & Hq & Hin). simpl in Hq.
  subst q. unfold remove_pids in Hin. apply filter_In in Hin as [_ Hkeep].
  simpl in Hkeep. rewrite Z.eqb_refl in Hkeep. discriminate.
Qed.



(** X4.  When [on_start] or [on_output] raises, the exception leaves
    [run_command] after the [with] block has waited for the child: the
    child is no longer in the process table, the callbacks after the
    failing call never run, [on_finish] among them, and the caller's state
    is the one the failing callback left.  ([w1] is the machine the two
    callbacks find: the one the spawn left.) *)
Theorem run_command_callback_raises
    cmd (on_start : option (@callback U Popen))
    (on_output : option (@callback U string))
    (on_finish : option (@callback U Z))
    cwd command out rc w u e u' :
  command_of shlex_split cmd = Ok command ->
  program_of w command cwd = Ok (out, rc) ->
  let w1 := set_next_pid (next_pid w + 1)
              (set_procs (fun tbl => tbl ++ [(next_pid w, self_pid w)])
                 (add_log (mk_log DEBUG "> %s" [])
                    (add_log (mk_log DEBUG "$ %s" []) w))) in
  (or_empty on_start (mk_popen (next_pid w) out rc) w1 ;;;
   for_each out (fun line => or_empty on_output line w1))%py u
    = (Raised e, u') ->
  exists w',
    run_command shlex_split cmd on_start on_output on_finish cwd (w, u)
      = (Raised e, (w', u'))
    /\ is_live (next_pid w) w' = false
    /\ delivered w' = delivered w.
Proof.
  intros Hcmd Hprog w1 Hraise.
  rewrite (run_command_spawned _ _ _ _ _ _ _ _ _ _ Hcmd Hprog). cbv zeta.
  fold w1. rewrite Hraise. eexists. split; [reflexivity |].
  split; [| reflexivity].
  apply (reaped_not_live (mk_popen (next_pid w) out rc)).
Qed.


(** X6.  A command line that [shlex.split] rejects makes [run_command]
    raise before anything is logged or spawned.  A spawn that fails, with
    whatever error the machine gives for this command in this working
    directory, makes it raise that very error after the two debug records;
    the empty argument list is such a case on every machine, with the
    [IndexError] of [args[0]].  In all these cases no callback is called
    and the process table is untouched. *)
Theorem run_command_fails_before_spawn
    cmd (on_start : option (@callback U Popen))
    (on_output : option (@callback U string))
    (on_finish : option (@callback U Z)) cwd w u :
  (forall e, command_of shlex_split cmd = Raised e ->
     run_command shlex_split cmd on_start on_output on_finish cwd (w, u)
       = (Raised e, (w, u)))
  /\ (forall command e,
        command_of shlex_split cmd = Ok command ->
        program_of w command cwd = Raised e ->
        exists w',
          run_command shlex_split cmd on_start on_output on_finish cwd (w, u)
            = (Raised e, (w', u))
          /\ procs w' = procs w
          /\ delivered w' = delivered w
          /\ log w' = log w ++ [mk_log DEBUG "$ %s" []; mk_log DEBUG "> %s" []])
  /\ (command_of shlex_split cmd = Ok [] ->
      exists e w',
        run_command shlex_split cmd on_start on_output on_finish cwd (w, u)
          = (Raised e, (w', u))
        /\ exn_class e = IndexError
        /\ procs w' = procs w).
Proof.
  assert (Hfail : forall command e,
            command_of shlex_split cmd = Ok command ->
            program_of w command cwd = Raised e ->
            exists w',
              run_command shlex_split cmd on_start on_output on_finish cwd
                (w, u) = (Raised e, (w', u))
              /\ procs w' = procs w
              /\ delivered w' = delivered w
              /\ log w' = log w ++ [mk_log DEBUG "$ %s" [];
                                    mk_log DEBUG "> %s" []]).
  { intros command e Hcmd Hprog.
    unfold run_command, with_Popen, bind at 1. rewrite Hcmd.
    unfold bind, in_world, log_debug, modify, Popen_spawn. simpl.
    change (program_of (add_log _ (add_log _ w)) command cwd)
      with (program_of w command cwd).
    rewrite Hprog. eexists. split; [reflexivity |]. simpl.
    rewrite <- app_assoc. auto. }
  split; [| split].
  - intros e Hcmd. unfold run_command, bind at 1. now rewrite Hcmd.
  - exact Hfail.
  - intros Hcmd.
    destruct (Hfail [] (mk_exn IndexError "list index out of range") Hcmd
                eq_refl) as (w' & Hrun & Hprocs & _).
    eexists _, w'. split; [exact Hrun |]. auto.
Qed.

End RunnerMore.

(* ===================================================================== *)
(** * More about the processor *)
(* ===================================================================== *)

Section ProcessorMore.

Context {MS : Type} {mgr : Manager MS}.

(** ** Construction *)

(** X7.  Once a construction has succeeded, every later call of
    [Processor] returns normally and leaves the singleton as it is,
    whatever it is given: other queues, another manager, or nothing.  The
    object it set up runs, has empty internal queues, registry and ledger,
    and its five threads started. *)
Theorem later_construction_changes_nothing
    (q : list (option Message.t)) (fq : list sig_item) (m : MS)
    (env : Surroundings) q' fq' (m' : option MS) env' :
  let c := snd (Processor (Some q) (Some fq) (Some m) env (mk_class None)) in
  Processor q' fq' m' env' c = (Ok tt, c)
  /\ exists s,
       __instance__ c = Some (mk_instance false (Some s))
       /\ running s = true /\ queue s = q /\ finishq s = fq /\ manager s = m
       /\ _internalq s = [] /\ _signals s = [] /\ _threads s = []
       /\ _petitions s = ∅ /\ _gc_event s = false
       /\ started s = [ProcessT; InternalT; FinishedT; SignalT; GcT].
Proof.
  cbv zeta. split; [reflexivity |].
  eexists. split; [reflexivity |]. repeat split.
Qed.

(** ** The message relay *)

(** X8.  A message put on an idle entry queue with [enqueue], which the
    manager converts into a petition that is not running, is on the
    internal priority queue after one turn of the relay, behind what was
    queued; the entry queue is empty again, no channel is written and no
    warning logged. *)
Theorem enqueue_then_relay (s : State MS) m p ms1 ms2 :
  queue s = [] ->
  convert_to_petition m (manager s) = (Some p, ms1) ->
  is_running (inr (id p)) ms1 = (false, ms2) ->
  exists s',
    _process_iter (after (enqueue m) s) = Some (Ok tt, s')
    /\ _internalq s' = _internalq s ++ [Unit p]
    /\ queue s' = []
    /\ channels s' = channels s
    /\ manager s' = ms2
    /\ calls s' = calls s ++ [Call_convert_to_petition (Message.id m);
                              Call_is_running (inr (id p))]
    /\ warnings (Cmd.log (world s')) = warnings (Cmd.log (world s))
    /\ _petitions s' = _petitions s /\ pool s' = pool s.
Proof.
  intros Hq Hconv Hrun.
  unfold _process_iter, after, enqueue, modify. cbn [snd queue set_queue].
  rewrite Hq. cbn [app].
  eexists. split.
  - unfold bind, logS, modify, _process_body, bind, call_convert_to_petition.
    simpl. rewrite Hconv. unfold exists_. simpl. rewrite Hrun. simpl.
    reflexivity.
  - simpl. rewrite <- app_assoc, !warnings_app. simpl.
    rewrite !app_nil_r. repeat split.
Qed.

(** X9.  A message the manager cannot convert is dropped: the turn takes
    it off the entry queue and ends normally; the internal queue and the
    channels are as before, [is_running] is not even asked, and nothing
    above debug level is logged. *)
Theorem unconvertible_message_dropped (s : State MS) m rest ms1 :
  queue s = Some m :: rest ->
  convert_to_petition m (manager s) = (None, ms1) ->
  exists s',
    _process_iter s = Some (Ok tt, s')
    /\ queue s' = rest
    /\ _internalq s' = _internalq s
    /\ channels s' = channels s
    /\ calls s' = calls s ++ [Call_convert_to_petition (Message.id m)]
    /\ warnings (Cmd.log (world s')) = warnings (Cmd.log (world s))
    /\ _petitions s' = _petitions s /\ pool s' = pool s.
Proof.
  intros Hq Hconv. unfold _process_iter. rewrite Hq.
  eexists. split.
  - unfold bind, logS, modify, _process_body, bind, call_convert_to_petition.
    simpl. rewrite Hconv. reflexivity.
  - simpl. rewrite !warnings_app. simpl. rewrite !app_nil_r. repeat split.
Qed.

(** ** The garbage collector and the ledger *)

Lemma is_alive_pool (s s' : State MS) t :
  pool s' = pool s -> is_alive s' t = is_alive s t.
Proof. unfold is_alive. now intros ->. Qed.

Lemma remove_first_keeps x t l : t <> x -> In t l -> In t (remove_first x l).
Proof.
  intros Hne. induction l as [| y l IH]; simpl; [tauto |].
  destruct (Nat.eqb_spec y x) as [-> | Hyx].
  - intros [-> | H]; [contradiction | exact H].
  - intros [-> | H]; [now left | right; auto].
Qed.

(** A walk leaves a sublist, keeps every live thread, and touches nothing
    but the ledger and the log. *)
Lemma gc_scan_spec fuel i (s : State MS) :
  _threads (gc_scan fuel i s) `sublist_of` _threads s
  /\ (forall t, In t (_threads s) -> is_alive s t = true ->
                In t (_threads (gc_scan fuel i s)))
  /\ pool (gc_scan fuel i s) = pool s
  /\ _gc_event (gc_scan fuel i s) = _gc_event s
  /\ _internalq (gc_scan fuel i s) = _internalq s
  /\ running (gc_scan fuel i s) = running s
  /\ started (gc_scan fuel i s) = started s
  /\ entered (gc_scan fuel i s) = entered s
  /\ warnings (Cmd.log (world (gc_scan fuel i s))) = warnings (Cmd.log (world s)).
Proof.
  revert i s. induction fuel as [| fuel IH]; intros i s.
  - simpl. repeat split; auto.
  - rewrite gc_scan_unfold.
    destruct (_threads s !! i) as [thread |]; [| repeat split; auto].
    destruct (is_alive s thread) eqn:Halive; cbn [negb]; [apply IH |].
    set (s1 := after _ s).
    destruct (IH (S i) s1) as (Hsub & Hlive & -> & -> & -> & -> & -> & -> & ->).
    assert (Hledger1 : _threads s1 = remove_first thread (_threads s))
      by reflexivity.
    repeat split; try reflexivity.
    + rewrite Hsub, Hledger1. apply remove_first_sublist.
    + intros t Ht Hta. apply Hlive.
      * rewrite Hledger1. apply remove_first_keeps; [congruence | exact Ht].
      * exact Hta.
    + unfold s1, after, bind, logS, modify. simpl.
      rewrite warnings_app. simpl. now rewrite app_nil_r.
Qed.

(** X10.  A wake-up of the collector ends normally, clears the event (so
    the next wait blocks until somebody sets it again), and prunes with
    care: what is left of the ledger is the old one with some entries
    taken out, order kept, and no thread that is still alive is taken out.
    The registry, the pool and the queues are not touched. *)
Theorem gc_wake_up_is_safe (s : State MS) r s' :
  _gc_iter s = Some (r, s') ->
  r = Ok tt
  /\ _threads s' `sublist_of` _threads s
  /\ (forall t, In t (_threads s) -> is_alive s t = true -> In t (_threads s'))
  /\ _gc_event s' = false
  /\ _gc_iter s' = None
  /\ _petitions s' = _petitions s /\ pool s' = pool s
  /\ _internalq s' = _internalq s
  /\ warnings (Cmd.log (world s')) = warnings (Cmd.log (world s)).
Proof.
  unfold _gc_iter at 1. destruct (_gc_event s) eqn:Hev; [| discriminate].
  intros [= <- <-].
  set (s0 := set_gc_event (fun _ => false) s).
  destruct (gc_scan_spec (length (_threads s0)) 0 s0)
    as (Hsub & Hlive & Hpool & Hevent & Hq & _ & _ & _ & Hwarn).
  destruct (gc_scan_frame (length (_threads s0)) 0 s0) as [Hreg _].
  repeat split; auto.
  unfold _gc_iter.
  change (_threads s) with (_threads s0). now rewrite Hevent.
Qed.

Lemma gc_scan_over_live j : forall i fuel (s : State MS) live rest,
  _threads s = live ++ rest ->
  (i + j = length live)%nat ->
  (forall x, In x live -> is_alive s x = true) ->
  gc_scan (j + fuel) i s = gc_scan fuel (length live) s.
Proof.
  induction j as [| j IH]; intros i fuel s live rest Hledger Hij Hlive.
  - simpl. replace i with (length live) by lia. reflexivity.
  - change (S j + fuel)%nat with (S (j + fuel)). rewrite gc_scan_unfold.
    assert (Hi : (i < length live)%nat) by lia.
    destruct (lookup_lt_is_Some_2 live i Hi) as [x Hx].
    rewrite Hledger, (lookup_app_l_Some _ _ _ _ Hx).
    rewrite (Hlive x) by (apply list_elem_of_In; eapply list_elem_of_lookup_2; eauto).
    cbn [negb].
    apply (IH (S i) fuel s live rest); auto. lia.
Qed.

Lemma remove_first_app_fresh x live rest :
  ~ In x live -> remove_first x (live ++ x :: rest) = live ++ rest.
Proof.
  induction live as [| y live IH]; simpl; intros Hnot.
  - now rewrite Nat.eqb_refl.
  - destruct (Nat.eqb_spec y x) as [-> | _]; [tauto |].
    f_equal. apply IH. tauto.
Qed.

(** X11.  A wake-up always gets the first finished thread of the ledger:
    with live threads only before it, and the thread nowhere else in the
    ledger, it is gone afterwards.  So every wake-up that finds a finished
    thread shortens the ledger, and what one walk steps over a later one
    removes. *)
Theorem gc_wake_up_removes_first_finished (s : State MS) live t rest :
  _gc_event s = true ->
  _threads s = live ++ t :: rest ->
  (forall x, In x live -> is_alive s x = true) ->
  is_alive s t = false ->
  ~ In t rest ->
  exists s',
    _gc_iter s = Some (Ok tt, s')
    /\ ~ In t (_threads s')
    /\ (length (_threads s') < length (_threads s))%nat.
Proof.
  intros Hev Hledger Hlive Hdead Hrest.
  unfold _gc_iter. rewrite Hev. eexists. split; [reflexivity |].
  set (s0 := set_gc_event (fun _ => false) s).
  assert (Hledger0 : _threads s0 = live ++ t :: rest) by exact Hledger.
  assert (Hnot : ~ In t live).
  { intros Hin. rewrite (Hlive t Hin) in Hdead. discriminate. }
  rewrite Hledger0. rewrite length_app. cbn [length].
  replace (length live + S (length rest))%nat
    with (length live + S (length rest))%nat by reflexivity.
  rewrite (gc_scan_over_live (length live) 0 (S (length rest)) s0 live
             (t :: rest) Hledger0 eq_refl Hlive).
  rewrite gc_scan_unfold, Hledger0.
  rewrite lookup_app_r by lia. rewrite Nat.sub_diag. cbn [lookup list_lookup].
  replace (is_alive s0 t) with false by (symmetry; exact Hdead).
  cbn [negb]. set (s1 := after _ s0).
  assert (Hledger1 : _threads s1 = live ++ rest).
  { unfold s1, after, bind, logS, modify. simpl. rewrite Hledger.
    now apply remove_first_app_fresh. }
  destruct (gc_scan_spec (length rest) (S (length live)) s1)
    as (Hsub & _).
  rewrite Hledger1 in Hsub. split.
  - intros Hin. apply list_elem_of_In in Hin.
    apply (elem_of_sublist _ _ _ Hin) in Hsub.
    apply list_elem_of_In, in_app_or in Hsub. tauto.
  - apply sublist_length in Hsub. rewrite length_app in Hsub.
    rewrite Hledger, length_app. simpl. lia.
Qed.

(** ** The launch worker *)

(** X12.  While an action runs, the registry entry of its petition is the
    pid of the latest call of [assign_pid] (a raw pid, or the pid of the
    [Popen] handed in): calls overwrite one another, other ids are left
    alone, and an action that never calls [assign_pid] leaves the registry
    as it is. *)
Theorem assign_pid_last_call_wins p a (s : State MS) :
  _petitions (snd (run_action p a s)) =
    match last_pid a with
    | Some n => <[id p := n]> (_petitions s)
    | None => _petitions s
    end.
Proof.
  revert s. induction a as [| e | proc rest IH]; intros s; try reflexivity.
  cbn [run_action last_pid]. unfold bind at 1.
  assert (Hassign : assign_pid p proc s =
            (Ok tt, snd (assign_pid p proc s))) by reflexivity.
  rewrite Hassign, IH.
  assert (Hreg : _petitions (snd (assign_pid p proc s)) =
            <[id p := pid_of proc]> (_petitions s)) by now destruct proc.
  rewrite Hreg. destruct (last_pid rest) as [n |]; [| reflexivity].
  apply insert_insert_eq.
Qed.

(** X13.  A unit that is not ready comes back as a new launch worker: after
    [_start] found the condition false with nothing else queued, the only
    thing the dispatcher can take next is that very petition, and its turn
    starts one more thread for it, at the first line of [_start], entered
    in the ledger under a thread of its own. *)
Theorem requeued_unit_gets_a_new_worker (s : State MS) p x q' :
  condition p (manager s) = false ->
  _internalq s = [] ->
  pq_get (_internalq (after (_start p) s)) x q' ->
  x = Unit p /\ q' = []
  /\ pool (after (_internal_process_iter x q') (after (_start p) s)) =
       pool s ++ [mk_worker p AtCondition false]
  /\ _threads (after (_internal_process_iter x q') (after (_start p) s)) =
       _threads s ++ [length (pool s)]
  /\ _internalq (after (_internal_process_iter x q') (after (_start p) s)) = [].
Proof.
  intros Hcond Hempty Hget.
  assert (Hq : _internalq (after (_start p) s) = [Unit p]).
  { unfold after, _start, bind, logS, modify, call_condition, bind, record,
      modify, gets. simpl. rewrite Hcond. simpl. now rewrite Hempty. }
  assert (Hpool : pool (after (_start p) s) = pool s
                  /\ _threads (after (_start p) s) = _threads s).
  { unfold after, _start, bind, logS, modify, call_condition, bind, record,
      modify, gets. simpl. rewrite Hcond. simpl. auto. }
  destruct Hpool as [Hpool Hledger].
  rewrite Hq in Hget. rewrite <- Hpool, <- Hledger.
  clear Hq. revert Hget. generalize (after (_start p) s). intros s1 Hget.
  remember [Unit p] as q eqn:Hq.
  destruct Hget as [l1 y l2 _].
  destruct l1 as [| z l1]; simpl in Hq.
  - injection Hq as -> ->. repeat split.
  - injection Hq as _ Hnil. now destruct l1.
Qed.

(** ** The signal path *)

(** X14.  The signal relay is a plain first-in first-out copy: as many
    turns as there are values waiting on the finish queue move them, [None]
    included, to the end of the internal signal queue in their order, and
    change nothing else but the log; on an empty finish queue a turn
    blocks. *)
Theorem signal_relay_keeps_order l : forall (s : State MS) rest,
  finishq s = l ++ rest ->
  exists s',
    _signal_handler_turns (length l) s = Some s'
    /\ finishq s' = rest
    /\ _signals s' = _signals s ++ l
    /\ _petitions s' = _petitions s /\ calls s' = calls s
    /\ _internalq s' = _internalq s /\ queue s' = queue s
    /\ (rest = [] -> _signal_handler_iter s' = None).
Proof.
  induction l as [| m l IH]; intros s rest Hq.
  - exists s. simpl. rewrite app_nil_r. repeat split; auto.
    intros ->. unfold _signal_handler_iter. now rewrite Hq.
  - cbn [length _signal_handler_turns]. unfold _signal_handler_iter at 1.
    rewrite Hq. cbn [app].
    unfold bind, logS, modify.
    match goal with
    | |- context [_signal_handler_turns (length l) ?s1] =>
        destruct (IH s1 rest eq_refl)
          as (s' & -> & Hf & Hs & Hreg & Hcalls & Hiq & Hqueue & Hblock)
    end.
    exists s'. simpl in *. rewrite Hs, <- app_assoc. repeat split; auto.
Qed.

(** ** What every interleaving keeps *)

Lemma process_iter_control (s : State MS) r s' :
  _process_iter s = Some (r, s') ->
  _threads s' = _threads s /\ pool s' = pool s
  /\ running s' = running s /\ entered s' = entered s.
Proof.
  unfold _process_iter. destruct (queue s) as [| [m |] rest]; [discriminate | |].
  - unfold bind, logS, modify, _process_body, bind, call_convert_to_petition.
    simpl. destruct (convert_to_petition m (manager s)) as [[p |] ms]; simpl.
    + unfold exists_. simpl.
      destruct (is_running (inr (id p)) ms) as [[] ms']; simpl;
        intros [= <- <-]; auto.
    + intros [= <- <-]; auto.
  - intros [= <- <-]; auto.
Qed.

Lemma signal_handler_control (s : State MS) r s' :
  _signal_handler_iter s = Some (r, s') ->
  _threads s' = _threads s /\ pool s' = pool s
  /\ running s' = running s /\ entered s' = entered s.
Proof.
  unfold _signal_handler_iter. destruct (finishq s); [discriminate |].
  intros [= <- <-]; auto.
Qed.

Lemma internal_signal_handler_control (s : State MS) r s' :
  _internal_signal_handler_iter s = Some (r, s') ->
  _threads s' = _threads s /\ pool s' = pool s
  /\ running s' = running s /\ entered s' = entered s.
Proof.
  unfold _internal_signal_handler_iter.
  destruct (_signals s) as [| m rest]; [discriminate |].
  unfold bind, logS, modify, _internal_signal_handler_body.
  destruct (target_id m) as [n |]; [| intros [= <- <-]; auto].
  unfold bind, logS, modify, gets. cbn [_petitions set_world set_signals].
  destruct (_petitions s !! n) as [pid |]; [| intros [= <- <-]; auto].
  unfold record, in_os, modify. cbn [world set_world set_signals set_calls].
  destruct (Cmd.kill_proc_tree _ _ _ _) as [[[] | e] w'];
    intros [= <- <-]; auto.
Qed.

Lemma worker_step_control p ph (s : State MS) :
  _threads (snd (worker_step p ph s)) = _threads s
  /\ pool (snd (worker_step p ph s)) = pool s
  /\ running (snd (worker_step p ph s)) = running s
  /\ entered (snd (worker_step p ph s)) = entered s.
Proof.
  destruct ph as [| | | [| e | proc rest] | rest | e | pending | pending
                  | pending | r]; simpl.
  all: try (destruct (negb (condition p (manager _))));
       try (destruct (isinstance e Exception)); simpl; auto.
Qed.

Lemma worker_step_at_control tid (s s' : State MS) :
  worker_step_at tid s = Some s' ->
  _threads s' = _threads s /\ length (pool s') = length (pool s)
  /\ running s' = running s /\ entered s' = entered s.
Proof.
  unfold worker_step_at.
  destruct (pool s !! tid) as [w |]; [| discriminate].
  pose proof (worker_step_control (w_unit w) (w_phase w) s) as Hc.
  destruct (worker_step (w_unit w) (w_phase w) s) as [ph' s1].
  cbn [snd] in Hc. destruct Hc as (Ht & Hp & Hr & He).
  intros [= <-]. cbn. rewrite length_insert. repeat split; congruence.
Qed.

Lemma leave_control d r (s : State MS) :
  _threads (leave d r s) = _threads s /\ pool (leave d r s) = pool s
  /\ running (leave d r s) = running s
  /\ entered (leave d r s) = without_daemon d (entered s).
Proof. unfold leave. now destruct (is_ok r). Qed.

Lemma ledger_inv_frame (s s' : State MS) :
  _threads s' = _threads s -> length (pool s') = length (pool s) ->
  ledger_inv s -> ledger_inv s'.
Proof. unfold ledger_inv. intros -> ->. auto. Qed.

Lemma ledger_inv_step (s s' : State MS) :
  step s s' -> ledger_inv s -> ledger_inv s'.
Proof.
  intros Hstep Hinv.
  destruct Hstep as [s m | s m | s | s d Hrun Hstarted Hout
                     | s r s' Hin Hiter | s p q' Hin Hget
                     | s r s' Hin Hiter | s r s' Hin Hiter
                     | s r s' Hin Hiter | s tid s' Hworker | s q fq ms ch w].
  - now apply (ledger_inv_frame s).
  - now apply (ledger_inv_frame s).
  - now apply (ledger_inv_frame s).
  - now apply (ledger_inv_frame s).
  - apply process_iter_control in Hiter as (Ht & Hp & _).
    destruct (leave_control ProcessT r s') as (Ht' & Hp' & _).
    apply (ledger_inv_frame s); congruence.
  - destruct (leave_control InternalT (Ok tt)
                (after (_internal_process_iter p q') s)) as (Ht' & Hp' & _).
    unfold ledger_inv. rewrite Ht', Hp'. destruct Hinv as [Hnodup Hbound].
    destruct p as [| u]; [now split |]. cbn. split.
    + apply NoDup_app. repeat split; [assumption | | apply NoDup_singleton].
      intros t Ht Hnew. apply list_elem_of_In in Ht.
      apply list_elem_of_In in Hnew. destruct Hnew as [<- | []].
      specialize (Hbound _ Ht). lia.
    + intros t Ht. rewrite length_app. cbn.
      apply in_app_or in Ht as [Ht | [<- | []]]; [| lia].
      specialize (Hbound _ Ht). lia.
  - apply signal_handler_control in Hiter as (Ht & Hp & _).
    destruct (leave_control FinishedT r s') as (Ht' & Hp' & _).
    apply (ledger_inv_frame s); congruence.
  - apply internal_signal_handler_control in Hiter as (Ht & Hp & _).
    destruct (leave_control SignalT r s') as (Ht' & Hp' & _).
    apply (ledger_inv_frame s); congruence.
  - destruct (leave_control GcT r s') as (Ht' & Hp' & _).
    unfold _gc_iter in Hiter. destruct (_gc_event s); [| discriminate].
    injection Hiter as <- <-.
    destruct (gc_scan_spec (length (_threads s)) 0
                (set_gc_event (fun _ => false) s)) as (Hsub & _ & Hpool & _).
    cbn in Hsub, Hpool. unfold ledger_inv. rewrite Ht', Hp'.
    cbn [_threads set_gc_event] in *. rewrite Hpool.
    destruct Hinv as [Hnodup Hbound]. split.
    + eapply sublist_NoDup; eauto.
    + intros t Ht. apply Hbound. apply list_elem_of_In.
      eapply elem_of_sublist; [| exact Hsub]. now apply list_elem_of_In.
  - apply worker_step_at_control in Hworker as (Ht & Hp & _).
    now apply (ledger_inv_frame s).
  - now apply (ledger_inv_frame s).
Qed.

(** X15.  However the five loops, the public methods, the launch workers
    and the outside world interleave from a successful first construction
    on, the ledger of launch threads never holds a thread twice, and holds
    only threads that the dispatcher has started: so the one
    [self._threads.remove(thread)] of a wake-up of the collector takes the
    thread out of the ledger altogether. *)
Theorem ledger_holds_started_threads_once (s : State MS) :
  reachable s ->
  ledger_inv s
  /\ forall t, In t (_threads s) -> ~ In t (remove_first t (_threads s)).
Proof.
  intros (s0 & Hinit & Hsteps).
  assert (Hinv : ledger_inv s).
  { assert (H0 : ledger_inv s0).
    { destruct Hinit as (q & fq & m & env & c & Hc & Hs).
      unfold Processor, __new__, __init__ in Hc. simpl in Hc.
      injection Hc as <-. simpl in Hs. injection Hs as <-.
      split; [apply NoDup_nil_2 | intros t []]. }
    clear Hinit. induction Hsteps; eauto using ledger_inv_step. }
  split; [exact Hinv |].
  intros t Hin. destruct Hinv as [Hnodup _].
  induction (_threads s) as [| y l IH]; [easy |].
  apply NoDup_cons in Hnodup as [Hy Hl]. cbn.
  destruct (Nat.eqb_spec y t) as [-> | Hne].
  - now rewrite list_elem_of_In in Hy.
  - destruct Hin as [-> | Hin]; [congruence |].
    intros [-> | Hrest]; [congruence |]. now apply IH.
Qed.

Lemma running_entered_step (s s' : State MS) :
  step s s' -> running s = false ->
  running s' = false
  /\ forall d, has_daemon d (entered s') = true ->
               has_daemon d (entered s) = true.
Proof.
  assert (Hwithout : forall d d' l,
            has_daemon d (without_daemon d' l) = true ->
            has_daemon d l = true).
  { intros d d' l. unfold has_daemon, without_daemon.
    rewrite !existsb_exists. intros (x & Hx & Hd).
    apply filter_In in Hx as [Hx _]. eauto. }
  intros Hstep Hoff.
  destruct Hstep as [s m | s m | s | s d Hrun Hstarted Hout
                     | s r s' Hin Hiter | s p q' Hin Hget
                     | s r s' Hin Hiter | s r s' Hin Hiter
                     | s r s' Hin Hiter | s tid s' Hworker | s q fq ms ch w].
  - now split.
  - now split.
  - now split.
  - congruence.
  - apply process_iter_control in Hiter as (_ & _ & Hr & He).
    destruct (leave_control ProcessT r s') as (_ & _ & -> & ->).
    rewrite Hr, He. eauto.
  - destruct (leave_control InternalT (Ok tt)
                (after (_internal_process_iter p q') s)) as (_ & _ & -> & ->).
    assert (Hc : running (after (_internal_process_iter p q') s) = running s
                 /\ entered (after (_internal_process_iter p q') s)
                    = entered s) by now destruct p.
    destruct Hc as [-> ->]. eauto.
  - apply signal_handler_control in Hiter as (_ & _ & Hr & He).
    destruct (leave_control FinishedT r s') as (_ & _ & -> & ->).
    rewrite Hr, He. eauto.
  - apply internal_signal_handler_control in Hiter as (_ & _ & Hr & He).
    destruct (leave_control SignalT r s') as (_ & _ & -> & ->).
    rewrite Hr, He. eauto.
  - destruct (leave_control GcT r s') as (_ & _ & -> & ->).
    unfold _gc_iter in Hiter. destruct (_gc_event s); [| discriminate].
    injection Hiter as <- <-.
    destruct (gc_scan_spec (length (_threads s)) 0
                (set_gc_event (fun _ => false) s))
      as (_ & _ & _ & _ & _ & Hr & _ & He & _).
    rewrite Hr, He. cbn [running entered set_gc_event]. eauto.
  - apply worker_step_at_control in Hworker as (_ & _ & Hr & He).
    rewrite Hr, He. auto.
  - now split.
Qed.

(** X16.  Nothing ever sets [running] again: from a state in which the
    flag is off (that is, from [shutdown] on), it is off in every later
    state, whatever runs in between, and no long-lived thread passes the
    test at the head of its loop any more; the threads that are inside a
    turn later on were inside that turn when the flag was off already. *)
Theorem running_is_never_set_again (s s' : State MS) :
  running s = false -> rtc step s s' ->
  running s' = false
  /\ forall d, has_daemon d (entered s') = true ->
               has_daemon d (entered s) = true.
Proof.
  intros Hoff Hsteps. induction Hsteps as [s | s s1 s' Hstep Hsteps IH].
  - auto.
  - destruct (running_entered_step s s1 Hstep Hoff) as [Hoff1 Hsub].
    destruct (IH Hoff1) as [Hoff' Hsub']. auto.
Qed.

(** ** From the public methods to the loops *)

Lemma consumer_turn_registered (s : State MS) m rest n pid :
  _signals s = m :: rest ->
  target_id m = Some n ->
  _petitions s !! n = Some pid ->
  exists r s' sent,
    _internal_signal_handler_iter s = Some (r, s')
    /\ _signals s' = rest /\ finishq s' = finishq s
    /\ calls s' = calls s ++ [Call_kill_proc_tree pid false Cmd.SIGINT]
    /\ Cmd.delivered (world s') =
         Cmd.delivered (world s) ++ map (fun c => (c, Cmd.SIGINT)) sent
    /\ (forall c, In c sent -> Cmd.is_descendant (world s) c pid = true)
    /\ _petitions s' = _petitions s.
Proof.
  intros Hsig Htarget Hreg.
  unfold _internal_signal_handler_iter. rewrite Hsig.
  unfold bind at 1. unfold logS at 1, modify at 1.
  unfold bind at 1. unfold modify at 1.
  unfold _internal_signal_handler_body. rewrite Htarget.
  unfold bind at 1. unfold logS at 1, modify at 1.
  unfold bind at 1. unfold gets at 1.
  cbn [_petitions set_world set_signals]. rewrite Hreg.
  unfold bind at 1. unfold record at 1, modify at 1.
  unfold bind at 1. unfold in_os at 1.
  cbn [world set_world set_signals set_calls].
  match goal with
  | |- context [Cmd.kill_proc_tree pid false Cmd.SIGINT ?w0] =>
      set (w1 := w0);
      destruct (Cmd.kill_proc_tree pid false Cmd.SIGINT w1) as [r w'] eqn:Hkill
  end.
  destruct (kill_proc_tree_children_only _ _ _ _ _ Hkill)
    as (sent & Hd & Hdesc).
  destruct r as [[] | e];
    (eexists _, _, sent; split; [reflexivity |]);
    simpl; rewrite Hd; repeat split; auto.
Qed.

(** X17.  [finish] on an idle processor, for a message (or the id of one)
    whose unit is registered under [pid]: the request crosses both signal
    queues, one turn of the relay and one of the consumer, and ends in
    exactly one call [kill_proc_tree pid] with [including_parent = False]
    and [SIGINT]; whatever is signalled is a descendant of [pid], both
    queues are empty again and the registry still holds the unit. *)
Theorem finish_reaches_the_children (s : State MS) m pid :
  finishq s = [] -> _signals s = [] ->
  _petitions s !! (match m with inl msg => Message.id msg | inr n => n end)
    = Some pid ->
  exists s1 r s2 sent,
    _signal_handler_iter (after (finish m) s) = Some (Ok tt, s1)
    /\ _internal_signal_handler_iter s1 = Some (r, s2)
    /\ finishq s2 = [] /\ _signals s2 = []
    /\ calls s2 = calls s ++ [Call_kill_proc_tree pid false Cmd.SIGINT]
    /\ Cmd.delivered (world s2) =
         Cmd.delivered (world s) ++ map (fun c => (c, Cmd.SIGINT)) sent
    /\ (forall c, In c sent -> Cmd.is_descendant (world s) c pid = true)
    /\ _petitions s2 = _petitions s.
Proof.
  intros Hfq Hsig Hreg.
  set (n := match m with inl msg => Message.id msg | inr n => n end) in *.
  assert (Hfin : after (finish m) s =
            set_finishq (fun q => q ++ [SigId n])
              (set_world
                 (Cmd.add_log
                    (mk_log DEBUG
                       "received petition for finish message with ID %d" [n]))
                 s)) by reflexivity.
  rewrite Hfin. clear Hfin.
  unfold _signal_handler_iter. cbn [finishq set_finishq set_world].
  rewrite Hfq. cbn [app].
  match goal with
  | |- context [set_finishq ?f (set_world ?g s)] =>
      set (s1 := set_signals (fun q => q ++ [SigId n])
                   (set_finishq (fun _ => [])
                      (set_world
                         (Cmd.add_log
                            (mk_log DEBUG "waiting for finish message..." []))
                         (set_finishq f (set_world g s)))))
  end.
  destruct (consumer_turn_registered s1 (SigId n) [] n pid)
    as (r & s2 & sent & Hiter & Hs2 & Hf2 & Hcalls & Hd & Hdesc & Hreg2).
  { subst s1. cbn. now rewrite Hsig. }
  { reflexivity. }
  { exact Hreg. }
  exists s1, r, s2, sent. split; [reflexivity |].
  split; [exact Hiter |]. rewrite Hf2, Hs2, Hcalls, Hd, Hreg2.
  repeat split. exact Hdesc.
Qed.

(** X18.  The first part of [shutdown], up to its first [join], on an
    idle processor: it raises nothing, clears [running], sets the GC event
    and leaves one sentinel on each entry queue.  The sentinels are all
    that the four queue loops then see: the message relay turns its own
    into an [EmptyPetition], the only entry the dispatcher can take, for
    which no thread is started; the signal relay hands the other on and
    the consumer lets it pass.  All four queues are empty afterwards, and
    no collaborator was called, no process signalled, no channel written,
    no registry entry touched: running units are not interrupted.  (When
    the method returns is the matter of its [join]s, further down.) *)
Theorem shutdown_wakes_every_loop_quietly (s : State MS) :
  queue s = [] -> finishq s = [] -> _signals s = [] -> _internalq s = [] ->
  fst (shutdown_begin s) = Ok tt
  /\ running (after shutdown_begin s) = false
  /\ _gc_event (after shutdown_begin s) = true
  /\ exists s1 s3 s4,
       _process_iter (after shutdown_begin s) = Some (Ok tt, s1)
       /\ (forall x q', pq_get (_internalq s1) x q' ->
             x = EmptyPetition /\ q' = [])
       /\ _signal_handler_iter
            (after (_internal_process_iter EmptyPetition []) s1)
          = Some (Ok tt, s3)
       /\ _internal_signal_handler_iter s3 = Some (Ok tt, s4)
       /\ queue s4 = [] /\ finishq s4 = []
       /\ _signals s4 = [] /\ _internalq s4 = []
       /\ pool s4 = pool s /\ _threads s4 = _threads s
       /\ _petitions s4 = _petitions s /\ calls s4 = calls s
       /\ channels s4 = channels s
       /\ Cmd.delivered (world s4) = Cmd.delivered (world s)
       /\ Cmd.procs (world s4) = Cmd.procs (world s)
       /\ warnings (Cmd.log (world s4)) = warnings (Cmd.log (world s)).
Proof.
  intros Hq Hfq Hsig Hiq.
  assert (Hshut : shutdown_begin s =
            (Ok tt,
             set_world (Cmd.add_log
                          (mk_log INFO "waiting for pending processes..." []))
               (set_gc_event (fun _ => true)
                  (set_finishq (fun q => q ++ [SigNone])
                     (set_queue (fun q => q ++ [None])
                        (set_running (fun _ => false)
                           (set_world
                              (Cmd.add_log
                                 (mk_log INFO "finishing processor" []))
                              s))))))) by reflexivity.
  unfold after. rewrite Hshut. cbn [fst snd].
  split; [reflexivity |]. split; [reflexivity |]. split; [reflexivity |].
  unfold _process_iter.
  cbn [queue set_world set_gc_event set_finishq set_queue set_running].
  rewrite Hq. cbn [app].
  eexists. eexists. eexists. split; [reflexivity |].
  split.
  { cbn. rewrite Hiq. cbn. intros x q' Hget.
    remember [EmptyPetition] as q eqn:Hqq.
    destruct Hget as [l1 y l2 _].
    destruct l1 as [| z l1]; simpl in Hqq.
    - now injection Hqq as -> ->.
    - injection Hqq as _ Hnil. now destruct l1. }
  split.
  { unfold _signal_handler_iter. cbn. rewrite Hfq. cbn. reflexivity. }
  split.
  { unfold _internal_signal_handler_iter. cbn. rewrite Hsig. cbn.
    reflexivity. }
  cbn. rewrite !warnings_app. cbn. rewrite !app_nil_r. repeat split.
Qed.

(** ** The joins of [shutdown] *)










Lemma shutdown_run_ledger (s : State MS) k : forall i,
  (forall t, In t (_threads s) -> is_alive s t = false) ->
  (i + k = length (_threads s))%nat ->
  shutdown_run (S k) (JoinLaunch i) s =
    (ShutdownReturned, after (logS INFO "finished" []) s).
Proof.
  induction k as [| k IH]; intros i Hdead Hlen.
  - cbn. rewrite (proj2 (lookup_ge_None (_threads s) i)) by lia. reflexivity.
  - cbn [shutdown_run shutdown_step].
    destruct (lookup_lt_is_Some_2 (_threads s) i) as [t Ht]; [lia |].
    rewrite Ht, (Hdead t).
    + apply IH; [exact Hdead | lia].
    + apply list_elem_of_In. eapply list_elem_of_lookup_2; eauto.
Qed.

(** X20.  [shutdown] does return once all threads are done.  With none of
    the five long-lived threads alive and every thread of the ledger at
    its end, the caller goes through all its [join]s without waiting, one
    move for each of the five threads and one for each entry of the
    ledger; the method returns, having logged its four progress records
    and changed nothing else. *)
Theorem shutdown_returns_when_all_is_done (s : State MS) :
  (forall d, daemon_alive s d = false) ->
  (forall t, In t (_threads s) -> is_alive s t = false) ->
  exists s',
    shutdown_run (6 + length (_threads s)) (JoinDaemon ProcessT) s
      = (ShutdownReturned, s')
    /\ Cmd.log (world s') =
         Cmd.log (world s)
         ++ [mk_log INFO "waiting for pending signals..." [];
             mk_log INFO "waiting for garbage collector..." [];
             mk_log INFO "waiting for pending operations..." [];
             mk_log INFO "finished" []]
    /\ _threads s' = _threads s /\ pool s' = pool s
    /\ _petitions s' = _petitions s /\ calls s' = calls s
    /\ channels s' = channels s
    /\ Cmd.delivered (world s') = Cmd.delivered (world s).
Proof.
  intros Hdaemons Hdead.
  eexists. split.
  - change (6 + length (_threads s))%nat
      with (S (S (S (S (S (S (length (_threads s)))))))).
    do 5 (cbn [shutdown_run shutdown_step];
          match goal with
          | |- context [daemon_alive ?s1 ?d] =>
              change (daemon_alive s1 d) with (daemon_alive s d);
              rewrite (Hdaemons d)
          end).
    apply shutdown_run_ledger; [exact Hdead | reflexivity].
  - cbn. rewrite <- !app_assoc. repeat split.
Qed.



End ProcessorMore.
(* ===================================================================== *)
(** * The further facts at work on the small installation *)
(* ===================================================================== *)

(** ** Signals *)

Lemma kill_proc_tree_stays_in_tree_witness :
  exists sent,
    Cmd.delivered (snd (Cmd.kill_proc_tree 300 true Cmd.SIGTERM Demo.racing)) =
      Cmd.delivered Demo.racing ++ map (fun c => (c, Cmd.SIGTERM)) sent
    /\ forall c, In c sent ->
         c = 300 \/ Cmd.is_descendant Demo.racing c 300 = true.
Proof.
  destruct (kill_proc_tree_stays_in_tree 300 true Cmd.SIGTERM Demo.racing
              (fst (Cmd.kill_proc_tree 300 true Cmd.SIGTERM Demo.racing))
              (snd (Cmd.kill_proc_tree 300 true Cmd.SIGTERM Demo.racing)))
    as [Hsent _]; [vm_compute; reflexivity | exact Hsent].
Defined.

Lemma kill_proc_tree_parent_last_witness :
  exists w',
    Cmd.kill_proc_tree 300 true Cmd.SIGTERM Demo.machine = (Ok tt, w')
    /\ Cmd.delivered w' =
         [(301, Cmd.SIGTERM); (302, Cmd.SIGTERM); (303, Cmd.SIGTERM);
          (300, Cmd.SIGTERM)]
    /\ Cmd.log w' = [].
Proof.
  destruct (kill_proc_tree_parent_last 300 Cmd.SIGTERM Demo.machine)
    as (w' & Hkill & Hd & Hl & _);
    [reflexivity | reflexivity | lia | reflexivity |].
  exists w'. split; [exact Hkill |]. split; [| exact Hl].
  rewrite Hd. reflexivity.
Defined.

Lemma kill_proc_tree_access_denied_witness :
  exists e w',
    Cmd.kill_proc_tree 300 true Cmd.SIGTERM Demo.guarded = (Raised e, w')
    /\ exn_class e = AccessDenied
    /\ Cmd.delivered w' = [(301, Cmd.SIGTERM)]
    /\ Cmd.log w' = [].
Proof.
  exact (kill_proc_tree_access_denied 300 true Cmd.SIGTERM Demo.guarded
           (Cmd.mk_process 300) Demo.guarded
           [Cmd.mk_process 301] (Cmd.mk_process 302) [Cmd.mk_process 303]
           Demo.guarded (Cmd.add_delivered 301 Cmd.SIGTERM Demo.guarded)
           eq_refl eq_refl eq_refl eq_refl eq_refl).
Defined.

(** ** Commands *)

Lemma run_command_callback_raises_witness :
  exists w',
    Cmd.run_command Demo.split_words (inl "echo hello")
      (Some Demo.note_start) (Some Demo.reject_output)
      (Some Demo.note_finish) None (Demo.machine, [])
    = (Raised (mk_exn RuntimeError "bad line"), (w', ["start 400"]))
    /\ Cmd.is_live 400 w' = false
    /\ Cmd.delivered w' = [].
Proof.
  exact (run_command_callback_raises Demo.split_words (inl "echo hello")
           (Some Demo.note_start) (Some Demo.reject_output)
           (Some Demo.note_finish) None ["echo"; "hello"] ["hello"] 0
           Demo.machine [] (mk_exn RuntimeError "bad line") ["start 400"]
           eq_refl eq_refl eq_refl).
Defined.


(** A quotation left open; a file that is no program; a program that is
    there, started in a directory that is not; and no argument at all. *)
Lemma run_command_fails_before_spawn_witness :
  Cmd.run_command Demo.split_words (inl "echo 'hello")
    (Some Demo.note_start) None None None (Demo.machine, [])
  = (Raised (mk_exn ValueError "No closing quotation"), (Demo.machine, []))
  /\ (exists w',
        Cmd.run_command Demo.split_words (inr ["./deploy"])
          (Some Demo.note_start) None None None (Demo.machine, [])
        = (Raised (mk_exn OSError "Exec format error"), (w', []))
        /\ Cmd.procs w' = Cmd.procs Demo.machine)
  /\ (exists w',
        Cmd.run_command Demo.split_words (inr ["echo"; "hello"])
          (Some Demo.note_start) None None (Some "/nowhere") (Demo.machine, [])
        = (Raised (mk_exn FileNotFoundError "No such file or directory"),
           (w', []))
        /\ Cmd.procs w' = Cmd.procs Demo.machine)
  /\ exists e w',
       Cmd.run_command Demo.split_words (inr [])
         (Some Demo.note_start) None None None (Demo.machine, [])
       = (Raised e, (w', []))
       /\ exn_class e = IndexError
       /\ Cmd.procs w' = Cmd.procs Demo.machine.
Proof.
  split; [| split; [| split]].
  - exact (proj1 (run_command_fails_before_spawn Demo.split_words
                    (inl "echo 'hello") (Some Demo.note_start) None None None
                    Demo.machine [])
             (mk_exn ValueError "No closing quotation") eq_refl).
  - destruct (proj1 (proj2 (run_command_fails_before_spawn Demo.split_words
                              (inr ["./deploy"]) (Some Demo.note_start) None
                              None None Demo.machine []))
                ["./deploy"] (mk_exn OSError "Exec format error")
                eq_refl eq_refl)
      as (w' & Hrun & Hprocs & _).
    exists w'. auto.
  - destruct (proj1 (proj2 (run_command_fails_before_spawn Demo.split_words
                              (inr ["echo"; "hello"]) (Some Demo.note_start)
                              None None (Some "/nowhere") Demo.machine []))
                ["echo"; "hello"]
                (mk_exn FileNotFoundError "No such file or directory")
                eq_refl eq_refl)
      as (w' & Hrun & Hprocs & _).
    exists w'. auto.
  - exact (proj2 (proj2 (run_command_fails_before_spawn Demo.split_words
                           (inr []) (Some Demo.note_start) None None None
                           Demo.machine []))
             eq_refl).
Defined.

(** ** The relay and the dispatcher *)

Lemma enqueue_then_relay_witness :
  exists s',
    _process_iter (after (enqueue Demo.build) Demo.fresh) = Some (Ok tt, s')
    /\ _internalq s' = [Unit (Demo.petition_of Demo.build)]
    /\ queue s' = [].
Proof.
  destruct (enqueue_then_relay Demo.fresh Demo.build
              (Demo.petition_of Demo.build) [] [])
    as (s' & Hiter & Hq & Hentry & _);
    [reflexivity | reflexivity | reflexivity |].
  exists s'. auto.
Defined.

Lemma unconvertible_message_dropped_witness :
  exists s',
    _process_iter (set_queue (fun _ => [Some (Message.mk 9 EmptyString)])
                     Demo.fresh)
      = Some (Ok tt, s')
    /\ queue s' = [] /\ _internalq s' = []
    /\ calls s' = [Call_convert_to_petition 9].
Proof.
  destruct (unconvertible_message_dropped
              (set_queue (fun _ => [Some (Message.mk 9 EmptyString)])
                 Demo.fresh)
              (Message.mk 9 EmptyString) [] [])
    as (s' & Hiter & Hq & Hiq & _ & Hcalls & _); [reflexivity | reflexivity |].
  exists s'. auto.
Defined.

Lemma requeued_unit_gets_a_new_worker_witness :
  pool (after (_internal_process_iter (Unit (Demo.waiting 9)) [])
          (after (_start (Demo.waiting 9)) Demo.fresh))
    = [mk_worker (Demo.waiting 9) AtCondition false]
  /\ _threads (after (_internal_process_iter (Unit (Demo.waiting 9)) [])
                 (after (_start (Demo.waiting 9)) Demo.fresh))
     = [0%nat].
Proof.
  destruct (requeued_unit_gets_a_new_worker Demo.fresh (Demo.waiting 9)
              (Unit (Demo.waiting 9)) [])
    as (_ & _ & Hpool & Hledger & _); [reflexivity | reflexivity | |].
  - replace (_internalq (after (_start (Demo.waiting 9)) Demo.fresh))
      with ([] ++ Unit (Demo.waiting 9) :: [] : list (item (list Z)))
      by (vm_compute; reflexivity).
    apply pq_get_least. intros y [].
  - split; [exact Hpool | exact Hledger].
Defined.

(** ** The collector *)

Lemma gc_wake_up_is_safe_witness :
  exists s',
    _gc_iter Demo.one_finished = Some (Ok tt, s')
    /\ In 0%nat (_threads s') /\ In 2%nat (_threads s')
    /\ _gc_event s' = false.
Proof.
  exists (gc_scan 3 0 (set_gc_event (fun _ => false) Demo.one_finished)).
  destruct (gc_wake_up_is_safe Demo.one_finished (Ok tt)
              (gc_scan 3 0 (set_gc_event (fun _ => false) Demo.one_finished)))
    as (_ & _ & Hlive & Hev & _); [reflexivity |].
  split; [reflexivity |].
  split; [apply Hlive; [now left | reflexivity] |].
  split; [apply Hlive; [now right; right; left | reflexivity] | exact Hev].
Defined.

Lemma gc_wake_up_removes_first_finished_witness :
  exists s',
    _gc_iter Demo.one_finished = Some (Ok tt, s')
    /\ ~ In 1%nat (_threads s').
Proof.
  destruct (gc_wake_up_removes_first_finished Demo.one_finished
              [0%nat] 1%nat [2%nat])
    as (s' & Hiter & Hgone & _).
  - reflexivity.
  - reflexivity.
  - intros x [<- | []]. reflexivity.
  - reflexivity.
  - intros [H | []]. discriminate.
  - exists s'. auto.
Defined.

(** ** The signal path *)

Lemma signal_relay_keeps_order_witness :
  exists s',
    _signal_handler_turns 2
      (set_finishq (fun _ => [SigId 9; SigNone]) Demo.fresh) = Some s'
    /\ finishq s' = []
    /\ _signals s' = [SigId 9; SigNone]
    /\ _signal_handler_iter s' = None.
Proof.
  destruct (signal_relay_keeps_order [SigId 9; SigNone]
              (set_finishq (fun _ => [SigId 9; SigNone]) Demo.fresh) [])
    as (s' & Hturns & Hf & Hs & _ & _ & _ & _ & Hblock); [reflexivity |].
  exists s'. split; [exact Hturns |]. split; [exact Hf |].
  split; [exact Hs | exact (Hblock eq_refl)].
Defined.

Lemma finish_reaches_the_children_witness :
  exists s1 r s2 sent,
    _signal_handler_iter (after (finish (inr 9)) Demo.registered)
      = Some (Ok tt, s1)
    /\ _internal_signal_handler_iter s1 = Some (r, s2)
    /\ calls s2 = [Call_kill_proc_tree 300 false Cmd.SIGINT]
    /\ forall c, In c sent -> Cmd.is_descendant Demo.machine c 300 = true.
Proof.
  destruct (finish_reaches_the_children Demo.registered (inr 9) 300)
    as (s1 & r & s2 & sent & Hrelay & Hconsume & _ & _ & Hcalls & _ & Hdesc & _);
    [reflexivity | reflexivity | reflexivity |].
  exists s1, r, s2, sent. auto.
Defined.

(** ** Shutdown *)

Lemma shutdown_wakes_every_loop_quietly_witness :
  running (after shutdown_begin Demo.registered) = false
  /\ exists s1 s3 s4,
       _process_iter (after shutdown_begin Demo.registered)
         = Some (Ok tt, s1)
       /\ _signal_handler_iter
            (after (_internal_process_iter EmptyPetition []) s1)
          = Some (Ok tt, s3)
       /\ _internal_signal_handler_iter s3 = Some (Ok tt, s4)
       /\ _petitions s4 = {[9 := 300]}
       /\ Cmd.delivered (world s4) = [].
Proof.
  destruct (shutdown_wakes_every_loop_quietly Demo.registered)
    as (_ & Hoff & _ & s1 & s3 & s4 & Hrelay & _ & Hsignal & Hconsume
        & _ & _ & _ & _ & _ & _ & Hreg & _ & _ & Hd & _);
    [reflexivity | reflexivity | reflexivity | reflexivity |].
  split; [exact Hoff |]. exists s1, s3, s4. auto.
Defined.

Lemma running_is_never_set_again_witness :
  running (after (enqueue Demo.build) (after shutdown_begin Demo.fresh))
    = false.
Proof.
  destruct (running_is_never_set_again (after shutdown_begin Demo.fresh)
              (after (enqueue Demo.build) (after shutdown_begin Demo.fresh)))
    as [Hoff _]; [reflexivity | apply rtc_once, step_enqueue | exact Hoff].
Defined.

Lemma launched_is_reachable : reachable Demo.launched.
Proof.
  exists Demo.fresh. split.
  - exists [], [], [], Demo.surroundings,
      (mk_class (Some (mk_instance false (Some Demo.fresh)))).
    split; reflexivity.
  - apply (rtc_l _ _ Demo.enqueued); [apply step_enqueue |].
    apply (rtc_l _ _ Demo.relaying);
      [apply (step_loop_head _ ProcessT); reflexivity |].
    apply (rtc_l _ _ Demo.relayed).
    { apply (step_process Demo.relaying (Ok tt)); [reflexivity |].
      vm_compute. reflexivity. }
    apply (rtc_l _ _ Demo.dispatching);
      [apply (step_loop_head _ InternalT); reflexivity |].
    apply (rtc_l _ _ Demo.dispatched).
    { apply (step_internal_process Demo.dispatching
               (Unit (Demo.petition_of Demo.build)) []);
        [reflexivity |].
      replace (_internalq Demo.dispatching)
        with ([] ++ Unit (Demo.petition_of Demo.build) :: [])
        by (vm_compute; reflexivity).
      apply pq_get_least. intros y []. }
    apply (rtc_l _ _ Demo.checked).
    { apply (step_worker _ 0%nat). vm_compute. reflexivity. }
    apply (rtc_l _ _ Demo.launched).
    { apply (step_worker _ 0%nat). vm_compute. reflexivity. }
    apply rtc_refl.
Qed.


Lemma shutdown_returns_when_all_is_done_witness :
  exists s',
    shutdown_run 8 (JoinDaemon ProcessT)
      (set_running (fun _ => false) Demo.two_finished)
      = (ShutdownReturned, s')
    /\ Cmd.log (world s') =
         [mk_log INFO "waiting for pending signals..." [];
          mk_log INFO "waiting for garbage collector..." [];
          mk_log INFO "waiting for pending operations..." [];
          mk_log INFO "finished" []]
    /\ _threads s' = [0%nat; 1%nat].
Proof.
  destruct (shutdown_returns_when_all_is_done
              (set_running (fun _ => false) Demo.two_finished))
    as (s' & Hrun & Hlog & Hledger & _).
  - intros d. destruct d; reflexivity.
  - intros t [<- | [<- | []]]; reflexivity.
  - exists s'. split; [exact Hrun |]. split; [exact Hlog | exact Hledger].
Defined.

(** ** The ledger *)

Lemma ledger_holds_started_threads_once_witness :
  _threads Demo.launched = [0%nat]
  /\ ledger_inv Demo.launched
  /\ ~ In 0%nat (remove_first 0 (_threads Demo.launched)).
Proof.
  split; [reflexivity |].
  destruct (ledger_holds_started_threads_once Demo.launched
              launched_is_reachable) as [Hinv Hgone].
  split; [exact Hinv |]. apply Hgone. now left.
Defined.
